(** * maths-vector: a shallow embedding of the Go package [vector]

    The package defines one value type, [Vector], with three [float64]
    components, and a library of free functions and methods over it.  Two
    versions of the package are present in the repository: [vector.go] and a
    second copy that differs in [Equals] and in the method [Set].

    Go's [float64] is interpreted twice.

    - [float]: Rocq's primitive binary64 numbers.  Addition, subtraction,
      multiplication, division, square root, absolute value and the
      comparisons are the IEEE-754 operations of the Go program, and every
      definition evaluates with [vm_compute].  (Go may fuse [x*y + z] on some
      architectures; the unfused evaluation of amd64 is the one modelled.)
    - [R]: the real numbers, that is the same program text read without
      rounding, overflow or NaN.  This is the reading under which the
      algebraic laws of the package (unit length after normalisation, angle
      formulas) are exact equalities.

    The functions of Go's [math] package that are not IEEE primitives
    ([Cos], [Sin], [Acos], [Mod]) form a second interface, [GoMath].
    Over [R] it is instantiated with the mathematical functions; over
    [float] it stays a parameter, so that a statement proved for the
    [float] reading holds whatever these library functions return. *)

From Stdlib Require Import ZArith List String Ascii Bool Lia.
From Stdlib Require Import Floats.
From Stdlib Require Import Reals Lra Psatz.
From Stdlib Require Import DecimalString.
Import ListNotations.

Set Implicit Arguments.

(** ** The scalar interface *)

(** The operations of [float64] that the package uses.  [f64_dec m e] is the
    decimal literal [m * 10^e] ([f64_dec 1 (-9)] is [1e-9]). *)
Class Float64 (F : Type) : Type := {
  f64_dec : Z -> Z -> F;
  f64_add : F -> F -> F;
  f64_sub : F -> F -> F;
  f64_mul : F -> F -> F;
  f64_div : F -> F -> F;
  f64_neg : F -> F;
  f64_eqb : F -> F -> bool;
  f64_ltb : F -> F -> bool;
  f64_leb : F -> F -> bool;
  math_Abs : F -> F;
  math_Sqrt : F -> F;
  math_Pi : F
}.

(** The remaining functions of package [math]. *)
Class GoMath (F : Type) : Type := {
  math_Cos : F -> F;
  math_Sin : F -> F;
  math_Acos : F -> F;
  math_Mod : F -> F -> F
}.

Declare Scope f64_scope.
Delimit Scope f64_scope with f64.

Notation "x + y" := (f64_add x y) : f64_scope.
Notation "x - y" := (f64_sub x y) : f64_scope.
Notation "x * y" := (f64_mul x y) : f64_scope.
Notation "x / y" := (f64_div x y) : f64_scope.
Notation "- x" := (f64_neg x) : f64_scope.
Notation "x == y" := (f64_eqb x y) (at level 70, no associativity) : f64_scope.
Notation "x != y" := (negb (f64_eqb x y))
  (at level 70, no associativity) : f64_scope.
Notation "x <? y" := (f64_ltb x y) : f64_scope.
Notation "x <=? y" := (f64_leb x y) : f64_scope.
Notation "x >=? y" := (f64_leb y x) (at level 70, no associativity) : f64_scope.

(** An integer-valued literal such as [0.0], [1.0] or [10]. *)
Definition lit {F : Type} `{Float64 F} (n : Z) : F := f64_dec n 0.

(** ** The [float] reading of [float64] *)

Module F64.

(** The binary64 number nearest to an integer (ties to even). *)
Definition of_Z (n : Z) : float :=
  SF2Prim (binary_normalize prec emax n 0 false).

(** A decimal literal [m * 10^e].  For [e < 0] the correctly rounded
    quotient of two exactly representable integers is the nearest binary64
    number to the literal, as Go's constant conversion requires; the
    literals of the package ([1e-9], [1.0e-8]) are of this kind. *)
Definition dec (m e : Z) : float :=
  match e with
  | Z0 => of_Z m
  | Zpos _ => of_Z (m * 10 ^ e)
  | Zneg _ => PrimFloat.div (of_Z m) (of_Z (10 ^ (Z.opp e)))
  end.

End F64.

#[export] Instance Float64_float : Float64 float := {
  f64_dec := F64.dec;
  f64_add := PrimFloat.add;
  f64_sub := PrimFloat.sub;
  f64_mul := PrimFloat.mul;
  f64_div := PrimFloat.div;
  f64_neg := PrimFloat.opp;
  f64_eqb := PrimFloat.eqb;
  f64_ltb := PrimFloat.ltb;
  f64_leb := PrimFloat.leb;
  math_Abs := PrimFloat.abs;
  math_Sqrt := PrimFloat.sqrt;
  math_Pi := 0x1.921fb54442d18p+1%float
}.

(** *** Signs of binary64 numbers

    The classification of a number by its specification [Prim2SF]: strictly
    positive ([+Inf] included), or not negative and not NaN. *)

Module Sign.

Definition is_pos (x : spec_float) : bool :=
  match x with
  | S754_finite false _ _ | S754_infinity false => true
  | _ => false
  end.

Definition is_nonneg (x : spec_float) : bool :=
  match x with
  | S754_zero _ | S754_finite false _ _ | S754_infinity false => true
  | _ => false
  end.

Definition fpos (a : float) : Prop := is_pos (Prim2SF a) = true.

Definition fnonneg (a : float) : Prop := is_nonneg (Prim2SF a) = true.

(** A zero, or a positive finite number with an exponent of at least
    [-115], that is a number of at least [2^-63]. *)
Definition funit (a : float) : Prop :=
  (exists s, Prim2SF a = S754_zero s)
  \/ (exists m e, Prim2SF a = S754_finite false m e /\ (-115 <= e)%Z).

(** Not below zero: a zero of either sign, a positive number or NaN. *)
Definition not_negative (x : spec_float) : bool :=
  match x with
  | S754_zero _ | S754_nan | S754_finite false _ _ | S754_infinity false => true
  | _ => false
  end.

(** A number that is neither an infinity nor NaN. *)
Definition is_finite (x : spec_float) : bool :=
  match x with
  | S754_zero _ | S754_finite _ _ _ => true
  | _ => false
  end.

Definition ffinite (a : float) : Prop := is_finite (Prim2SF a) = true.

End Sign.

(** ** The exact reading of [float64] *)

Module Exact.

(** A decimal literal [m * 10^e] as a real number. *)
Definition dec (m e : Z) : R :=
  match e with
  | Zneg _ => (IZR m / IZR (10 ^ (Z.opp e)))%R
  | _ => IZR (m * 10 ^ e)
  end.

Definition eqb (x y : R) : bool := if Req_dec_T x y then true else false.
Definition ltb (x y : R) : bool := if Rlt_dec x y then true else false.
Definition leb (x y : R) : bool := if Rle_dec x y then true else false.

(** Truncation towards zero of a real number. *)
Definition trunc (r : R) : Z :=
  if Rle_dec 0 r then Int_part r else Z.opp (Int_part (- r)).

(** [math.Mod x y]: the remainder of [x / y] with the sign of [x] and a
    magnitude below that of [y], that is [x - y * trunc (x / y)]. *)
Definition Mod (x y : R) : R := (x - y * IZR (trunc (x / y)))%R.

End Exact.

#[export] Instance Float64_R : Float64 R := {
  f64_dec := Exact.dec;
  f64_add := Rplus;
  f64_sub := Rminus;
  f64_mul := Rmult;
  f64_div := Rdiv;
  f64_neg := Ropp;
  f64_eqb := Exact.eqb;
  f64_ltb := Exact.ltb;
  f64_leb := Exact.leb;
  math_Abs := Rabs;
  math_Sqrt := sqrt;
  math_Pi := PI
}.

#[export] Instance GoMath_R : GoMath R := {
  math_Cos := cos;
  math_Sin := sin;
  math_Acos := acos;
  math_Mod := Exact.Mod
}.

(** ** Go's [fmt] verb [%f] on [float64] *)

Module GoFmt.

Local Open Scope Z_scope.

(** [n / d] rounded to the nearest integer, ties to the even one
    ([0 <= n], [0 < d]): the rounding of Go's decimal conversion. *)
Definition round_half_even (n d : Z) : Z :=
  let q := n / d in
  let r := n mod d in
  if 2 * r <? d then q
  else if d <? 2 * r then q + 1
  else if Z.even q then q else q + 1.

(** The integer nearest to [m * 2^e * 10^prec]. *)
Definition scaled (prec : nat) (m : positive) (e : Z) : Z :=
  let p := 10 ^ Z.of_nat prec in
  if 0 <=? e then Zpos m * 2 ^ e * p
  else round_half_even (Zpos m * p) (2 ^ (- e)).

Definition digits (n : Z) : string :=
  NilZero.string_of_uint (N.to_uint (Z.to_N n)).

Fixpoint replicate (n : nat) (c : ascii) : string :=
  match n with
  | O => EmptyString
  | S k => String c (replicate k c)
  end.

Definition pad_left (c : ascii) (w : nat) (s : string) : string :=
  (replicate (w - String.length s) c ++ s)%string.

(** A sign and a magnitude [n / 10^prec] in positional notation with
    exactly [prec] digits after the point. *)
Definition fixed (prec : nat) (neg : bool) (n : Z) : string :=
  let p := 10 ^ Z.of_nat prec in
  ((if neg then "-" else "")
     ++ digits (n / p)
     ++ match prec with
        | O => ""
        | S _ => "." ++ pad_left "0"%char prec (digits (n mod p))
        end)%string.

(** The verb [%f] with a precision: [strconv]'s exact, correctly rounded
    conversion; infinities and NaN print as words. *)
Definition format_f (prec : nat) (x : float) : string :=
  match Prim2SF x with
  | S754_nan => "NaN"%string
  | S754_infinity s => if s then "-Inf"%string else "+Inf"%string
  | S754_zero s => fixed prec s 0
  | S754_finite s m e => fixed prec s (scaled prec m e)
  end.

(** The precision of [%f] when the verb gives none. *)
Definition default_prec : nat := 6.

(** [%<wid>f]: a width and no precision.  The width is a minimum, filled
    with spaces on the left. *)
Definition verb_wid_f (wid : nat) (x : float) : string :=
  pad_left " "%char wid (format_f default_prec x).

(** [%.<prec>f]: a precision and no width. *)
Definition verb_prec_f (prec : nat) (x : float) : string :=
  format_f prec x.

End GoFmt.

(** ** The data model *)

(** [type Vector struct { X, Y, Z float64 }] *)
Record Vector (F : Type) : Type := mkVector { X : F; Y : F; Z : F }.

Arguments mkVector {F} _ _ _.

Section Package.

Context {F : Type} `{Float64 F}.

Local Open Scope f64_scope.
Local Abbreviation Vec := (Vector F).

(** Assignment to one field of a vector variable. *)
Definition set_X (v : Vec) (a : F) : Vec := mkVector a (Y v) (Z v).
Definition set_Y (v : Vec) (a : F) : Vec := mkVector (X v) a (Z v).
Definition set_Z (v : Vec) (a : F) : Vec := mkVector (X v) (Y v) a.

(** A method with a pointer receiver is a function from the receiver's
    value before the call to its value after it; successive assignments
    to the receiver rebind [v], so a later statement reads what an earlier
    one wrote.  Methods are prefixed with [Vector_]. *)

(** *** vector.go *)

Definition Equals (v1 v2 : Vec) : bool :=
  let x := math_Abs (X v1 - X v2) in
  let y := math_Abs (Y v1 - Y v2) in
  let z := math_Abs (Z v1 - Z v2) in
  (x <? f64_dec 1 (-9)) && (y <? f64_dec 1 (-9)) && (z <? f64_dec 1 (-9)).

Definition Vector_Equals (v1 v2 : Vec) : bool :=
  let x := math_Abs (X v1 - X v2) in
  let y := math_Abs (Y v1 - Y v2) in
  let z := math_Abs (Z v1 - Z v2) in
  (x <? f64_dec 1 (-9)) && (y <? f64_dec 1 (-9)) && (z <? f64_dec 1 (-9)).

Definition NewVector (values : list F) : Vec :=
  let x := lit 0 in
  let y := lit 0 in
  let z := lit 0 in
  let l := List.length values in
  let x := if (0 <? l)%nat then nth 0 values x else x in
  let y := if (1 <? l)%nat then nth 1 values y else y in
  let z := if (2 <? l)%nat then nth 2 values z else z in
  mkVector x y z.

Definition Vector_Set (v : Vec) (values : list F) : Vec :=
  let l := List.length values in
  let v := if (l =? 0)%nat
           then set_Z (set_Y (set_X v (lit 0)) (lit 0)) (lit 0)
           else v in
  let v := if (0 <? l)%nat then set_X v (nth 0 values (lit 0)) else v in
  let v := if (1 <? l)%nat then set_Y v (nth 1 values (lit 0)) else v in
  let v := if (2 <? l)%nat then set_Z v (nth 2 values (lit 0)) else v in
  v.

Definition Vector_Copy (v : Vec) : Vec := mkVector (X v) (Y v) (Z v).

Definition Add (v1 v2 : Vec) : Vec :=
  mkVector (X v1 + X v2) (Y v1 + Y v2) (Z v1 + Z v2).

Definition Vector_Add (v other : Vec) : Vec :=
  let v := set_X v (X v + X other) in
  let v := set_Y v (Y v + Y other) in
  let v := set_Z v (Z v + Z other) in
  v.

Definition Sub (v1 v2 : Vec) : Vec :=
  mkVector (X v1 - X v2) (Y v1 - Y v2) (Z v1 - Z v2).

Definition Vector_Sub (v other : Vec) : Vec :=
  let v := set_X v (X v - X other) in
  let v := set_Y v (Y v - Y other) in
  let v := set_Z v (Z v - Z other) in
  v.

Definition Mult (v : Vec) (m : F) : Vec :=
  mkVector (X v * m) (Y v * m) (Z v * m).

Definition Vector_Mult (v : Vec) (m : F) : Vec :=
  let v := set_X v (X v * m) in
  let v := set_Y v (Y v * m) in
  let v := set_Z v (Z v * m) in
  v.

Definition Div (v : Vec) (d : F) : Vec :=
  mkVector (X v / d) (Y v / d) (Z v / d).

Definition Vector_Div (v : Vec) (d : F) : Vec :=
  let v := set_X v (X v / d) in
  let v := set_Y v (Y v / d) in
  let v := set_Z v (Z v / d) in
  v.

Definition MagSq (v : Vec) : F :=
  (X v * X v) + (Y v * Y v) + (Z v * Z v).

Definition Mag (v : Vec) : F := math_Sqrt (MagSq v).

Definition Vector_MagSq (v : Vec) : F :=
  (X v * X v) + (Y v * Y v) + (Z v * Z v).

Definition Vector_Mag (v : Vec) : F := math_Sqrt (Vector_MagSq v).

Definition DotProduct (v1 v2 : Vec) : F :=
  X v1 * X v2 + Y v1 * Y v2 + Z v1 * Z v2.

Definition Vector_DotProduct (v other : Vec) : F :=
  X v * X other + Y v * Y other + Z v * Z other.

Definition Dist (v1 v2 : Vec) : F :=
  let dx := X v1 - X v2 in
  let dy := Y v1 - Y v2 in
  let dz := Z v1 - Z v2 in
  let sq := (dx * dx) + (dy * dy) + (dz * dz) in
  math_Sqrt sq.

Definition Vector_Dist (v other : Vec) : F :=
  let dx := X v - X other in
  let dy := Y v - Y other in
  let dz := Z v - Z other in
  let sq := (dx * dx) + (dy * dy) + (dz * dz) in
  math_Sqrt sq.

Definition Normalise (v : Vec) : Vec :=
  let m := Vector_Mag v in
  Div v m.

Definition Vector_Normalise (v : Vec) : Vec :=
  let m := Vector_Mag v in
  Vector_Div v m.

Definition Limit (v : Vec) (l : F) : Vec :=
  let m := Vector_Mag v in
  if m <=? l then v
  else
    let n := Normalise v in
    Mult n l.

Definition Vector_Limit (v : Vec) (l : F) : Vec :=
  let m := Vector_Mag v in
  if m <=? l then v
  else
    let v := Vector_Normalise v in
    let v := Vector_Mult v l in
    v.

Definition SetMag (v : Vec) (m : F) : Vec :=
  let n := Normalise v in
  Mult n m.

Definition Vector_SetMag (v : Vec) (m : F) : Vec :=
  let v := Vector_Normalise v in
  let v := Vector_Mult v m in
  v.

(** [rand.Float64] draws from a process-wide generator.  The generator is
    a state of some type [Rand] that each draw advances; Go evaluates the
    arguments of a call from left to right. *)
Section Random.

Variable Rand : Type.
Variable rand_Float64 : Rand -> F * Rand.

Definition Random2d (g : Rand) : Vec * Rand :=
  let (r1, g) := rand_Float64 g in
  let (r2, g) := rand_Float64 g in
  let v := NewVector [r1; r2] in
  let v := Vector_Normalise v in
  (v, g).

Definition Random3d (g : Rand) : Vec * Rand :=
  let (r1, g) := rand_Float64 g in
  let (r2, g) := rand_Float64 g in
  let (r3, g) := rand_Float64 g in
  let v := NewVector [r1; r2; r3] in
  let v := Vector_Normalise v in
  (v, g).

End Random.

(** *** The test helper [compare] *)

Definition compare (a b : F) : bool :=
  let c := math_Abs (a - b) in
  c <? f64_dec 1 (-8).

End Package.

Section Angles.

Context {F : Type} `{Float64 F} `{GoMath F}.

Local Open Scope string_scope.
Local Open Scope f64_scope.
Local Abbreviation Vec := (Vector F).

Definition AngleBetween (v1 v2 : Vec) : F :=
  let v1m := Vector_Mag v1 in
  let v2m := Vector_Mag v2 in
  let dp := Vector_DotProduct v1 v2 in
  math_Acos (dp / (v1m * v2m)).

Definition Vector_AngleBetween (v other : Vec) : F :=
  let v1m := Vector_Mag v in
  let v2m := Vector_Mag other in
  let dp := Vector_DotProduct v other in
  math_Acos (dp / (v1m * v2m)).

Definition Heading (v : Vec) : F :=
  let base := NewVector [lit 10; lit 0] in
  let angle := AngleBetween v base in
  angle.

Definition Vector_Heading (v : Vec) : F :=
  let base := NewVector [lit 10; lit 0] in
  Vector_AngleBetween base v.

Definition Rotate (v : Vec) (angle : F) : Vec :=
  let c := math_Cos (- angle) in
  let s := math_Sin (- angle) in
  NewVector [c * X v - s * Y v; s * X v + c * Y v].

Definition Vector_Rotate (v : Vec) (angle : F) : Vec :=
  let c := math_Cos (- angle) in
  let s := math_Sin (- angle) in
  let v := set_X v (c * X v - s * Y v) in
  let v := set_Y v (s * X v + c * Y v) in
  v.

(** The calls to [log.Printf] in [quadrant] write to the standard logger
    and do not influence the result; they are left out.  [2*math.Pi],
    [math.Pi/2] and [3*math.Pi/2] are constant expressions of Go. *)
Definition quadrant (angle : F) : string :=
  let angle := math_Mod angle (lit 2 * math_Pi) in
  if (angle >=? lit 0) && (angle <=? math_Pi / lit 2) then "se"
  else if (angle >=? math_Pi / lit 2) && (angle <=? math_Pi) then "sw"
  else if (angle >=? math_Pi) && (angle <? lit 3 * math_Pi / lit 2) then "nw"
  else "ne".

(** [FromAngle] indexes [values[0]] without a length check: with no
    argument the call panics, which is the result [None]. *)
Definition FromAngle (values : list F) : option Vec :=
  match values with
  | [] => None
  | values_0 :: _ =>
      let angle := lit (-1) * values_0 in
      let length := lit 1 in
      let length := if (List.length values =? 2)%nat
                    then nth 1 values length else length in
      let x := math_Cos angle in
      let y := math_Sin angle in
      let v := NewVector [x; y] in
      let v := Vector_Normalise v in
      let v := if length != lit 1 then Vector_Mult v length else v in
      let q := quadrant angle in
      let v :=
        if String.eqb q "ne" then
          let v := set_X v (math_Abs (X v)) in
          set_Y v (math_Abs (Y v))
        else if String.eqb q "se" then
          let v := set_X v (math_Abs (X v)) in
          set_Y v (lit (-1) * math_Abs (Y v))
        else if String.eqb q "sw" then
          let v := set_X v (lit (-1) * math_Abs (X v)) in
          set_Y v (lit (-1) * math_Abs (Y v))
        else if String.eqb q "nw" then
          let v := set_X v (lit (-1) * math_Abs (X v)) in
          set_Y v (math_Abs (Y v))
        else v in
      Some v
  end.

(** The heading as the specification words it: the angle between the
    projection of [v] on the plane [z = 0] and the vector [(1, 0)]. *)
Definition Heading_spec (v : Vec) : F :=
  AngleBetween (NewVector [X v; Y v]) (NewVector [lit 1; lit 0]).

(** The vector that the specification gives for [fromAngle]. *)
Definition FromAngle_spec (angle length : F) : Vec :=
  mkVector (math_Cos (- angle) * length) (math_Sin (- angle) * length) (lit 0).

End Angles.

(** ** The second copy of the package

    A second source file of the repository declares the same package with
    the functions of [vector.go] up to [SetMag].  [Equals], its method form
    and the method [Set] are written differently; the other functions are
    the same text. *)

Module Part000.
Section Package.

Context {F : Type} `{Float64 F}.

Local Open Scope f64_scope.
Local Abbreviation Vec := (Vector F).

Definition Equals (v1 v2 : Vec) : bool :=
  (X v1 == X v2) && (Y v1 == Y v2) && (Z v1 == Z v2).

Definition Vector_Equals (v1 v2 : Vec) : bool :=
  (X v1 == X v2) && (Y v1 == Y v2) && (Z v1 == Z v2).

Definition Vector_Set (v : Vec) (values : list F) : Vec :=
  let l := List.length values in
  let v := if (l =? 0)%nat
           then set_Z (set_Y (set_X v (lit 0)) (lit 0)) (lit 0)
           else v in
  let v := if (0 <? l)%nat
           then set_Z (set_Y (set_X v (nth 0 values (lit 0))) (lit 0)) (lit 0)
           else v in
  let v := if (1 <? l)%nat
           then set_Z (set_Y v (nth 1 values (lit 0))) (lit 0)
           else v in
  let v := if (2 <? l)%nat then set_Z v (nth 2 values (lit 0)) else v in
  v.

End Package.
End Part000.

(** ** [String], on the [float] reading

    [fmt.Sprintf("{%2f, %2f, %2f}", v.X, v.Y, v.Z)]: each verb carries the
    width 2 and no precision. *)

Definition Vector_String (v : Vector float) : string :=
  ("{" ++ GoFmt.verb_wid_f 2 (X v) ++ ", "
       ++ GoFmt.verb_wid_f 2 (Y v) ++ ", "
       ++ GoFmt.verb_wid_f 2 (Z v) ++ "}")%string.

(** What the verb [%.2f] would print in the same place. *)
Definition String_two_decimals (v : Vector float) : string :=
  ("{" ++ GoFmt.verb_prec_f 2 (X v) ++ ", "
       ++ GoFmt.verb_prec_f 2 (Y v) ++ ", "
       ++ GoFmt.verb_prec_f 2 (Z v) ++ "}")%string.

(** ** Statements of the specification *)

Section Statements.

Context {F : Type} `{Float64 F}.

Local Open Scope f64_scope.

(** [set] called with at most three arguments overwrites all three
    components: the arguments come first, the rest is zero. *)
Definition overwrites_all (set : Vector F -> list F -> Vector F) : Prop :=
  forall (v : Vector F) (values : list F),
    (List.length values <= 3)%nat ->
    set v values =
    mkVector (nth 0 values (lit 0)) (nth 1 values (lit 0))
             (nth 2 values (lit 0)).

(** Two numbers are equal within the tolerance [1e-9]. *)
Definition within_1e_9 (a b : F) : bool :=
  math_Abs (a - b) <? f64_dec 1 (-9).

(** A vector is not the zero vector. *)
Definition non_zero (v : Vector F) : bool :=
  (X v != lit 0) || (Y v != lit 0) || (Z v != lit 0).

(** A number lies in the range [[0, 1)] of [rand.Float64]. *)
Definition in_unit_interval (r : F) : bool :=
  (lit 0 <=? r) && (r <? lit 1).

(** The values of [rand.Float64]: Go computes
    [float64(r.Int63()) / (1 << 63)] and draws again on 1, so a value is
    in [[0, 1)] and is zero or at least [2^-63]. *)
Definition rand_Float64_value (r : F) : bool :=
  in_unit_interval r && ((r == lit 0) || (lit 1 / lit (2 ^ 63) <=? r)).

(** A random source that draws the same number every time. *)
Definition constant_source (r : F) (g : unit) : F * unit := (r, g).

End Statements.

(** * Properties *)

Unset Implicit Arguments.

(** ** Sanity checks of the [float] reading

    The literals and the scenarios of the package's tests evaluate as in
    Go. *)

Example literals :
  (f64_dec 1 (-9) : float) = 0x1.12e0be826d695p-30%float
  /\ (f64_dec 1 (-8) : float) = 0x1.5798ee2308c3ap-27%float
  /\ (lit 10 : float) = 10%float
  /\ (lit (-1) : float) = (-1)%float
  /\ (lit 1 / lit (2 ^ 63))%f64 = 0x1p-63%float
  /\ (lit 2 * math_Pi)%f64 = 0x1.921fb54442d18p+2%float
  /\ (math_Pi / lit 2)%f64 = 0x1.921fb54442d18p+0%float
  /\ (lit 3 * math_Pi / lit 2)%f64 = 0x1.2d97c7f3321d2p+2%float.
Proof. repeat split; reflexivity. Qed.

Example test_create :
  NewVector [] = (mkVector 0 0 0)%float
  /\ NewVector [f64_dec 12 (-1)] = mkVector (f64_dec 12 (-1)) 0%float 0%float
  /\ NewVector [f64_dec 12 (-1); f64_dec 79 (-1)]
     = mkVector (f64_dec 12 (-1)) (f64_dec 79 (-1)) 0%float
  /\ NewVector [f64_dec 12 (-1); f64_dec 71 (-1); f64_dec 64 (-1)]
     = mkVector (f64_dec 12 (-1)) (f64_dec 71 (-1)) (f64_dec 64 (-1))
  /\ Equals (NewVector []) (mkVector 0 0 0)%float = true
  /\ (f64_dec 12 (-1) : float) = 0x1.3333333333333p+0%float.
Proof. repeat split; reflexivity. Qed.

Example test_dot_product :
  DotProduct (NewVector [3; 4]%float) (NewVector [3; 0]%float) = 9%float.
Proof. reflexivity. Qed.

Example test_distance :
  Vector_Dist (NewVector []) (NewVector [1; 0]%float) = 1%float
  /\ Vector_Dist (NewVector [1; 0]%float) (NewVector []) = 1%float.
Proof. split; reflexivity. Qed.

Example test_normalise :
  Vector_Normalise (NewVector [3; 0; 0]%float) = (mkVector 1 0 0)%float.
Proof. reflexivity. Qed.

(** ** [Set] *)

Section SetFacts.

Context {F : Type} `{Float64 F}.

(** In [vector.go] an argument list of length one or two leaves the
    components it does not cover as they were. *)
Lemma Vector_Set_one (v : Vector F) (a : F) :
  Vector_Set v [a] = mkVector a (Y v) (Z v).
Proof. reflexivity. Qed.

Lemma Vector_Set_two (v : Vector F) (a b : F) :
  Vector_Set v [a; b] = mkVector a b (Z v).
Proof. reflexivity. Qed.

Lemma Vector_Set_none (v : Vector F) :
  Vector_Set v [] = mkVector (lit 0) (lit 0) (lit 0).
Proof. reflexivity. Qed.

Lemma Vector_Set_three (v : Vector F) (a b c : F) (rest : list F) :
  Vector_Set v (a :: b :: c :: rest) = mkVector a b c.
Proof. reflexivity. Qed.

(** The second copy resets them, and so agrees with the constructor on
    every argument list. *)
Lemma Part000_Vector_Set_NewVector (v : Vector F) (values : list F) :
  Part000.Vector_Set v values = NewVector values.
Proof. destruct values as [| a [| b [| c rest]]]; reflexivity. Qed.

Lemma Part000_Vector_Set_overwrites_all :
  overwrites_all (@Part000.Vector_Set F _).
Proof.
  intros v values _.
  destruct values as [| a [| b [| c rest]]]; reflexivity.
Qed.

End SetFacts.

(** C3.  In [vector.go], [Set(5)] on a vector holding [{1,2,3}] yields
    [{5,2,3}]: the components that the arguments do not cover keep their
    values, so [Set] does not overwrite all three components. *)
Theorem Vector_Set_keeps_uncovered_components :
  Vector_Set (mkVector 1 2 3)%float [5%float] = (mkVector 5 2 3)%float
  /\ Part000.Vector_Set (mkVector 1 2 3)%float [5%float]
     = (mkVector 5 0 0)%float
  /\ ~ overwrites_all (@Vector_Set float _).
Proof.
  split; [reflexivity | split; [reflexivity |]].
  intros Hall.
  assert (Hv := Hall (mkVector 1 2 3)%float [5%float] ltac:(cbn; lia)).
  apply (f_equal (fun v => PrimFloat.eqb (Y v) 0%float)) in Hv.
  vm_compute in Hv.
  discriminate Hv.
Qed.

(** ** Facts about the two readings *)

Module ExactFacts.

Local Open Scope R_scope.

Lemma lit_IZR (n : BinNums.Z) : (lit n : R) = IZR n.
Proof. unfold lit; cbn. now rewrite Z.mul_1_r. Qed.




Lemma leb_false (x y : R) : y < x -> f64_leb x y = false.
Proof.
  intros Hlt; cbn; unfold Exact.leb.
  destruct (Rle_dec x y); [lra | reflexivity].
Qed.

Lemma eqb_true (x y : R) : x = y -> f64_eqb x y = true.
Proof. intros Heq; cbn; unfold Exact.eqb. now destruct (Req_dec_T x y). Qed.

Lemma eqb_false (x y : R) : x <> y -> f64_eqb x y = false.
Proof.
  intros Hne; cbn; unfold Exact.eqb.
  destruct (Req_dec_T x y); [contradiction | reflexivity].
Qed.

Lemma Vector_eq (a b c a' b' c' : R) :
  a = a' -> b = b' -> c = c' -> mkVector a b c = mkVector a' b' c'.
Proof. now intros -> -> ->. Qed.

Lemma MagSq_R (v : Vector R) :
  MagSq v = X v * X v + Y v * Y v + Z v * Z v.
Proof. reflexivity. Qed.

Lemma Mag_R (v : Vector R) :
  Mag v = sqrt (X v * X v + Y v * Y v + Z v * Z v).
Proof. reflexivity. Qed.

Lemma Vector_Mag_R (v : Vector R) :
  Vector_Mag v = sqrt (X v * X v + Y v * Y v + Z v * Z v).
Proof. reflexivity. Qed.

Lemma sqrt_sq (x : R) : 0 <= x -> sqrt (x * x) = x.
Proof. intros Hx. now apply sqrt_square. Qed.

End ExactFacts.

Module FloatFacts.

Import Sign.

Local Open Scope Z_scope.
Local Abbreviation fexp64 := (fexp prec emax).
Local Abbreviation bra64 := (binary_round_aux prec emax).

(** *** Shifts and rounding of the specification *)

Lemma digits2_pos_size (p : positive) : digits2_pos p = Pos.size p.
Proof. induction p; cbn; congruence. Qed.

Lemma digits2_pos_lower (p : positive) :
  2 ^ (Zpos (digits2_pos p) - 1) <= Zpos p.
Proof.
  rewrite digits2_pos_size.
  assert (H := Pos.size_le p).
  assert (Hp : (2 ^ Pos.size p <= p~0)%positive) by exact H.
  apply Pos2Z.pos_le_pos in Hp.
  rewrite Pos2Z.inj_pow in Hp.
  replace (Zpos (Pos.size p)) with (Z.succ (Zpos (Pos.size p) - 1)) in Hp
    by lia.
  rewrite Z.pow_succ_r in Hp by lia.
  lia.
Qed.

Lemma shr_1_m (r : shr_record) :
  0 <= shr_m r -> shr_m (shr_1 r) = shr_m r / 2.
Proof.
  destruct r as [m b s]; cbn [shr_m]; intros Hm.
  destruct m as [| p | p]; [reflexivity | | lia].
  destruct p as [p | p |]; cbn [shr_1 shr_m].
  - rewrite (Pos2Z.inj_xI p). apply Z.div_unique with 1; lia.
  - rewrite (Pos2Z.inj_xO p). apply Z.div_unique with 0; lia.
  - reflexivity.
Qed.

Lemma iter_pos_shr_1_m (p : positive) : forall r : shr_record,
  0 <= shr_m r -> shr_m (SpecFloat.iter_pos shr_1 p r) = shr_m r / 2 ^ Zpos p.
Proof.
  induction p as [p IH | p IH |]; intros r Hr; cbn [SpecFloat.iter_pos].
  - assert (H1 : 0 <= shr_m (shr_1 r)).
    { rewrite shr_1_m by assumption. apply Z.div_pos; lia. }
    assert (H2 : 0 <= shr_m (SpecFloat.iter_pos shr_1 p (shr_1 r))).
    { rewrite IH by assumption. apply Z.div_pos; lia. }
    rewrite IH, IH, shr_1_m by assumption.
    rewrite !Z.div_div by lia.
    f_equal. rewrite (Pos2Z.inj_xI p).
    replace (2 * Zpos p + 1) with (1 + Zpos p + Zpos p) by lia.
    rewrite (Z.pow_add_r 2 (1 + Zpos p) (Zpos p)) by lia.
    rewrite (Z.pow_add_r 2 1 (Zpos p)) by lia.
    change (2 ^ 1) with 2. lia.
  - assert (H2 : 0 <= shr_m (SpecFloat.iter_pos shr_1 p r)).
    { rewrite IH by assumption. apply Z.div_pos; lia. }
    rewrite IH, IH by assumption.
    rewrite !Z.div_div by lia.
    f_equal. rewrite (Pos2Z.inj_xO p).
    replace (2 * Zpos p) with (Zpos p + Zpos p) by lia.
    rewrite (Z.pow_add_r 2 (Zpos p) (Zpos p)) by lia. lia.
  - rewrite shr_1_m by assumption. reflexivity.
Qed.

Lemma shr_record_of_loc_m (m : BinNums.Z) (l : location) :
  shr_m (shr_record_of_loc m l) = m.
Proof. destruct l as [| []]; reflexivity. Qed.

(** A shift by [n] divides the mantissa by [2^n] and adds [n] to the
    exponent; a shift that is not positive does nothing. *)
Lemma shr_spec (r : shr_record) (e n : BinNums.Z) :
  0 <= shr_m r ->
  shr_m (fst (shr r e n)) = shr_m r / 2 ^ Z.max 0 n
  /\ snd (shr r e n) = e + Z.max 0 n.
Proof.
  intros Hr. destruct n as [| p | p]; cbn [shr fst snd].
  - rewrite Z.max_id. cbn. rewrite Z.div_1_r. lia.
  - rewrite iter_pos_shr_1_m by assumption.
    rewrite Z.max_r by lia. split; reflexivity.
  - rewrite Z.max_l by lia. cbn. rewrite Z.div_1_r. lia.
Qed.

Lemma round_nearest_even_ge (m : BinNums.Z) (l : location) :
  m <= round_nearest_even m l.
Proof.
  destruct l as [| []]; cbn; try lia.
  destruct (Z.even m); lia.
Qed.



Lemma is_pos_nonneg (x : spec_float) : is_pos x = true -> is_nonneg x = true.
Proof. destruct x as [s | [] | | [] m e]; cbn; congruence. Qed.

Lemma fexp_ge_emin (x : BinNums.Z) : emin <= fexp64 x.
Proof. unfold fexp. lia. Qed.

Lemma Zdigits2_lower (m : BinNums.Z) :
  0 < m -> 1 <= Zdigits2 m /\ 2 ^ (Zdigits2 m - 1) <= m.
Proof.
  destruct m as [| p | p]; try lia. intros _. cbn [Zdigits2].
  split; [lia | apply digits2_pos_lower].
Qed.

(** After the first shift of [binary_round_aux]. *)
Lemma shr_fexp_spec (m e : BinNums.Z) (l : location) :
  0 <= m ->
  let n := Z.max 0 (fexp64 (Zdigits2 m + e) - e) in
  shr_m (fst (shr_fexp prec emax m e l)) = m / 2 ^ n
  /\ snd (shr_fexp prec emax m e l) = e + n.
Proof.
  intros Hm n. unfold shr_fexp. subst n.
  rewrite <- (shr_record_of_loc_m m l) at 3.
  apply shr_spec. now rewrite shr_record_of_loc_m.
Qed.

Lemma shr_fexp_nonneg (m e : BinNums.Z) (l : location) :
  0 <= m -> 0 <= shr_m (fst (shr_fexp prec emax m e l)).
Proof.
  intros Hm. destruct (shr_fexp_spec m e l Hm) as [-> _].
  apply Z.div_pos; [assumption | apply Z.pow_pos_nonneg; lia].
Qed.

Lemma shr_fexp_pos (m e : BinNums.Z) (l : location) :
  0 < m -> emin < Zdigits2 m + e ->
  0 < shr_m (fst (shr_fexp prec emax m e l))
  /\ emin <= snd (shr_fexp prec emax m e l).
Proof.
  intros Hm He.
  destruct (shr_fexp_spec m e l) as [-> ->]; [lia |].
  destruct (Zdigits2_lower m Hm) as [Hd Hlow].
  assert (Hf := fexp_ge_emin (Zdigits2 m + e)).
  assert (Hn : Z.max 0 (fexp64 (Zdigits2 m + e) - e) <= Zdigits2 m - 1).
  { unfold fexp, SpecFloat.emin, prec, emax in *. lia. }
  split; [| lia].
  apply Z.div_str_pos. split; [apply Z.pow_pos_nonneg; lia |].
  apply Z.le_trans with (2 ^ (Zdigits2 m - 1)); [| assumption].
  apply Z.pow_le_mono_r; lia.
Qed.

Lemma bra_cases (s : bool) (m e : BinNums.Z) (l : location) :
  0 <= m ->
  match bra64 s m e l with
  | S754_zero s' | S754_infinity s' | S754_finite s' _ _ => s' = s
  | S754_nan => False
  end.
Proof.
  intros Hm. unfold binary_round_aux.
  assert (H1 := shr_fexp_nonneg m e l Hm).
  destruct (shr_fexp prec emax m e l) as [mrs' e']; cbn [fst] in H1.
  assert (Hr := round_nearest_even_ge (shr_m mrs') (loc_of_shr_record mrs')).
  set (m1 := round_nearest_even _ _) in *.
  assert (H2 := shr_fexp_nonneg m1 e' loc_Exact ltac:(lia)).
  destruct (shr_fexp prec emax m1 e' loc_Exact) as [mrs'' e'']; cbn [fst] in H2.
  destruct (shr_m mrs'') as [| p | p].
  - reflexivity.
  - destruct (e'' <=? emax - prec); reflexivity.
  - lia.
Qed.

Lemma bra_nonzero (s : bool) (m e : BinNums.Z) (l : location) :
  0 < m -> emin < Zdigits2 m + e ->
  match bra64 s m e l with
  | S754_infinity s' | S754_finite s' _ _ => s' = s
  | _ => False
  end.
Proof.
  intros Hm He. unfold binary_round_aux.
  destruct (shr_fexp_pos m e l Hm He) as [H1 He'].
  destruct (shr_fexp prec emax m e l) as [mrs' e']; cbn [fst snd] in H1, He'.
  assert (Hr := round_nearest_even_ge (shr_m mrs') (loc_of_shr_record mrs')).
  set (m1 := round_nearest_even _ _) in *.
  assert (Hm1 : 0 < m1) by lia.
  destruct (Zdigits2_lower m1 Hm1) as [Hd1 _].
  destruct (shr_fexp_pos m1 e' loc_Exact Hm1 ltac:(lia)) as [H2 _].
  destruct (shr_fexp prec emax m1 e' loc_Exact) as [mrs'' e'']; cbn [fst] in H2.
  destruct (shr_m mrs'') as [| p | p].
  - lia.
  - destruct (e'' <=? emax - prec); reflexivity.
  - lia.
Qed.

(** *** Operations on specifications *)

Lemma valid_exponent (s : bool) (m : positive) (e : BinNums.Z) :
  valid_binary (S754_finite s m e) = true -> emin <= e.
Proof.
  cbn [SpecFloat.valid_binary].
  unfold SpecFloat.bounded, SpecFloat.canonical_mantissa.
  rewrite andb_true_iff, Z.eqb_eq. intros [<- _]. apply fexp_ge_emin.
Qed.

Lemma Zdigits2_pos_ge_1 (p : positive) : 1 <= Zdigits2 (Zpos p).
Proof. cbn. lia. Qed.

Lemma SFmul_pos (mx my : positive) (ex ey : BinNums.Z) :
  emin <= ex + ey ->
  is_pos (SF64mul (S754_finite false mx ex) (S754_finite false my ey)) = true.
Proof.
  intros He. unfold SF64mul; cbn [SFmul xorb].
  assert (H := bra_nonzero false (Zpos (mx * my)) (ex + ey) loc_Exact
                 ltac:(lia) ltac:(pose proof (Zdigits2_pos_ge_1 (mx * my)); lia)).
  destruct (bra64 false (Zpos (mx * my)) (ex + ey) loc_Exact)
    as [s | s | | s m e]; try contradiction; subst s; reflexivity.
Qed.

Lemma shl_align_exponent (m : positive) (e e' : BinNums.Z) :
  emin <= e -> emin <= e' -> emin <= snd (shl_align m e e').
Proof.
  intros He He'. unfold shl_align.
  destruct (e' - e); cbn [snd]; assumption.
Qed.

Lemma binary_round_pos (m : positive) (e : BinNums.Z) :
  emin <= e -> is_pos (binary_round prec emax false m e) = true.
Proof.
  intros He. unfold binary_round.
  assert (Hs := shl_align_exponent m e (fexp64 (Zpos (digits2_pos m) + e))
                  He (fexp_ge_emin _)).
  destruct (shl_align m e _) as [mz ez]; cbn [snd] in Hs.
  assert (H := bra_nonzero false (Zpos mz) ez loc_Exact
                 ltac:(lia) ltac:(pose proof (Zdigits2_pos_ge_1 mz); lia)).
  destruct (bra64 false (Zpos mz) ez loc_Exact)
    as [s | s | | s m' e']; try contradiction; subst s; reflexivity.
Qed.

Lemma SFadd_nonneg (x y : spec_float) :
  valid_binary x = true -> valid_binary y = true ->
  is_nonneg x = true -> is_nonneg y = true ->
  is_nonneg (SF64add x y) = true
  /\ (is_pos x = true \/ is_pos y = true -> is_pos (SF64add x y) = true).
Proof.
  intros Vx Vy Hx Hy.
  destruct x as [sx | [] | | [] mx ex]; try discriminate Hx;
    destruct y as [sy | [] | | [] my ey]; try discriminate Hy;
    unfold SF64add; cbn [SFadd is_pos is_nonneg].
  - split; [destruct sx, sy; reflexivity | intros [H | H]; discriminate H].
  - split; [reflexivity | reflexivity].
  - split; [reflexivity | reflexivity].
  - split; [reflexivity | reflexivity].
  - split; [reflexivity | reflexivity].
  - split; [reflexivity | reflexivity].
  - split; [reflexivity | reflexivity].
  - split; [reflexivity | reflexivity].
  - apply valid_exponent in Vx, Vy.
    cbn [cond_Zopp]. cbn [Z.add binary_normalize].
    assert (H := binary_round_pos
                   (fst (shl_align mx ex (Z.min ex ey))
                    + fst (shl_align my ey (Z.min ex ey)))
                   (Z.min ex ey) ltac:(lia)).
    split; [now apply is_pos_nonneg | intros _; exact H].
Qed.

Lemma SFsqrt_pos (x : spec_float) :
  valid_binary x = true ->
  is_pos x = true -> is_pos (SF64sqrt x) = true.
Proof.
  intros Vx Hx.
  destruct x as [sx | [] | | [] m e]; try discriminate Hx; [reflexivity |].
  apply valid_exponent in Vx.
  unfold SF64sqrt; cbn [SFsqrt]. unfold SFsqrt_core_binary.
  set (e' := Z.min _ (Z.div2 e)).
  assert (He'1 : emin <= e').
  { subst e'. apply Z.min_glb; [apply fexp_ge_emin |].
    rewrite Z.div2_div. unfold SpecFloat.emin, prec, emax in *.
    apply Z.div_le_lower_bound; lia. }
  assert (He'2 : 0 <= e - 2 * e').
  { subst e'. pose proof (Z.le_min_r (fexp64 (Z.div2 (Zdigits2 (Zpos m) + e + 1)))
                               (Z.div2 e)) as Hle.
    rewrite (Z.div2_div e) in Hle.
    pose proof (Z.mul_div_le e 2 ltac:(lia)). lia. }
  set (m' := match e - 2 * e' with
             | 0 => Zpos m
             | Zpos _ => Z.shiftl (Zpos m) (e - 2 * e')
             | Zneg _ => 0
             end).
  assert (Hm' : 1 <= m').
  { subst m'. destruct (e - 2 * e') as [| p | p] eqn:E; [lia | | lia].
    rewrite Z.shiftl_mul_pow2 by lia.
    pose proof (Z.pow_pos_nonneg 2 (Zpos p) ltac:(lia) ltac:(lia)). nia. }
  assert (Hq : 1 <= fst (Z.sqrtrem m')).
  { rewrite Z.sqrtrem_sqrt. change 1 with (Z.sqrt 1). now apply Z.sqrt_le_mono. }
  destruct (Z.sqrtrem m') as [q r]; cbn [fst] in Hq.
  pose proof (Zdigits2_lower q ltac:(lia)) as [Hd _].
  assert (H := bra_nonzero false q e'
                 (if r =? 0 then loc_Exact
                  else loc_Inexact (if r <=? q then Lt else Gt))
                 ltac:(lia) ltac:(lia)).
  destruct (bra64 false q e' _) as [s | s | | s m1 e1];
    try contradiction; subst s; reflexivity.
Qed.

Lemma SFdiv_nonneg (x y : spec_float) :
  (exists s, x = S754_zero s) \/ (exists m e, x = S754_finite false m e) ->
  is_pos y = true ->
  is_nonneg (SF64div x y) = true.
Proof.
  intros Hx Hy.
  destruct y as [sy | [] | | [] my ey]; try discriminate Hy;
    destruct Hx as [[s ->] | (mx & ex & ->)]; unfold SF64div; cbn [SFdiv];
    try reflexivity.
  unfold SFdiv_core_binary.
  set (e' := Z.min _ _). set (s := ex - ey - e').
  set (m' := match s with
             | 0 => Zpos mx
             | Zpos _ => Z.shiftl (Zpos mx) s
             | Zneg _ => 0
             end).
  assert (Hm' : 0 <= m').
  { subst m'. destruct s as [| p | p]; [lia | | lia].
    apply Z.shiftl_nonneg. lia. }
  assert (Hq : 0 <= fst (Z.div_eucl m' (Zpos my))).
  { change (fst (Z.div_eucl m' (Zpos my))) with (m' / Zpos my).
    apply Z.div_pos; lia. }
  destruct (Z.div_eucl m' (Zpos my)) as [q r]; cbn [fst] in Hq.
  cbn [xorb].
  assert (H := bra_cases false q e' (new_location (Zpos my) r) Hq).
  destruct (bra64 false q e' _) as [s1 | s1 | | s1 m1 e1];
    try contradiction; subst s1; reflexivity.
Qed.

Lemma SFdiv_zero (y : spec_float) :
  is_pos y = true -> SF64div (S754_zero false) y = S754_zero false.
Proof.
  destruct y as [sy | [] | | [] my ey]; intros Hy; try discriminate Hy;
    reflexivity.
Qed.

(** *** Operations on [float] *)

Local Close Scope Z_scope.
Local Open Scope float_scope.


Lemma rand_Float64_value_funit (r : float) :
  rand_Float64_value r = true -> funit r.
Proof.
  change (rand_Float64_value r)
    with (((0 <=? r) && (r <? 1)) && ((r =? 0) || (0x1p-63 <=? r))).
  unfold funit.
  rewrite !andb_true_iff, orb_true_iff.
  rewrite leb_spec, ltb_spec, eqb_spec, leb_spec.
  change (Prim2SF 0) with (S754_zero false).
  change (Prim2SF 1) with (S754_finite false 4503599627370496 (-52)).
  change (Prim2SF 0x1p-63) with (S754_finite false 4503599627370496 (-115)).
  destruct (Prim2SF r) as [s | [] | | [] m e]; intros [[H1 H2] H3];
    cbv [SFleb SFltb SFcompare] in H1, H2; try discriminate.
  - left. now exists s.
  - right. exists m, e. split; [reflexivity |].
    destruct H3 as [H3 | H3]; [discriminate H3 |].
    cbv [SFleb SFcompare] in H3.
    destruct (Z.compare_spec (-115) e) as [He | He | He];
      [lia | lia | discriminate H3].
Qed.

Lemma square_nonneg (r : float) :
  funit r -> fnonneg (r * r) /\ ((r =? 0) = false -> fpos (r * r)).
Proof.
  intros Hr. unfold fnonneg, fpos. rewrite mul_spec.
  destruct Hr as [[s Hs] | (m & e & Hs & He)]; rewrite Hs.
  - split; [destruct s; reflexivity |].
    rewrite eqb_spec, Hs. discriminate.
  - assert (H : is_pos (SF64mul (S754_finite false m e)
                                (S754_finite false m e)) = true).
    { apply SFmul_pos. unfold SpecFloat.emin, prec, emax. lia. }
    split; [now apply is_pos_nonneg | intros _; exact H].
Qed.

Lemma add_nonneg (a b : float) :
  fnonneg a -> fnonneg b ->
  fnonneg (a + b) /\ (fpos a \/ fpos b -> fpos (a + b)).
Proof.
  unfold fnonneg, fpos. intros Ha Hb. rewrite add_spec.
  apply SFadd_nonneg; auto using Prim2SF_valid.
Qed.

Lemma sqrt_fpos (a : float) : fpos a -> fpos (PrimFloat.sqrt a).
Proof.
  unfold fpos. intros Ha. rewrite sqrt_spec.
  apply SFsqrt_pos; auto using Prim2SF_valid.
Qed.

Lemma div_nonneg (r m : float) : funit r -> fpos m -> fnonneg (r / m).
Proof.
  unfold fnonneg, fpos. intros Hr Hm. rewrite div_spec.
  apply SFdiv_nonneg; [| assumption].
  destruct Hr as [[s Hs] | (mr & er & Hs & _)]; eauto.
Qed.

Lemma div_zero (m : float) : fpos m -> 0 / m = 0.
Proof.
  unfold fpos. intros Hm. apply Prim2SF_inj. rewrite div_spec.
  change (Prim2SF 0) with (S754_zero false).
  now apply SFdiv_zero.
Qed.

Lemma fnonneg_leb (a : float) : fnonneg a -> (0 <=? a) = true.
Proof.
  unfold fnonneg. rewrite leb_spec.
  change (Prim2SF 0) with (S754_zero false).
  destruct (Prim2SF a) as [s | [] | | [] m e]; intros Ha;
    try discriminate Ha; reflexivity.
Qed.

Lemma zero_funit : funit 0.
Proof. left. exists false. reflexivity. Qed.

(** The magnitude of a vector of draws that are not all zero: positive. *)
Lemma magnitude_pos (r1 r2 r3 : float) :
  funit r1 -> funit r2 -> funit r3 ->
  (negb (r1 =? 0) || negb (r2 =? 0) || negb (r3 =? 0)) = true ->
  fpos (PrimFloat.sqrt (r1 * r1 + r2 * r2 + r3 * r3)).
Proof.
  intros H1 H2 H3 Hnz.
  destruct (square_nonneg r1 H1) as [N1 P1].
  destruct (square_nonneg r2 H2) as [N2 P2].
  destruct (square_nonneg r3 H3) as [N3 P3].
  destruct (add_nonneg _ _ N1 N2) as [N12 P12].
  destruct (add_nonneg _ _ N12 N3) as [_ P123].
  apply sqrt_fpos, P123.
  rewrite !orb_true_iff, !negb_true_iff in Hnz.
  destruct Hnz as [[Hz | Hz] | Hz]; auto.
Qed.

Lemma of_spec (x : float) (s : spec_float) : Prim2SF x = s -> x = SF2Prim s.
Proof. intros <-. symmetry. apply SF2Prim_Prim2SF. Qed.

(** A product with zero is a zero or NaN, whatever the other factor. *)
Lemma mul_zero_r (c : float) :
  c * 0 = 0 \/ c * 0 = neg_zero \/ c * 0 = nan.
Proof.
  assert (Hs := mul_spec c 0).
  change (Prim2SF 0) with (S754_zero false) in Hs.
  destruct (Prim2SF c) as [s | s | | s m e]; cbn in Hs;
    apply of_spec in Hs; rewrite Hs.
  - destruct s; cbn; auto.
  - auto.
  - auto.
  - destruct s; cbn; auto.
Qed.

(** The difference of two finite numbers that are [==] is a zero, so it is
    within every positive tolerance. *)
Lemma eqb_sub_zero (x y : float) :
  ffinite x -> (x =? y) = true -> x - y = 0 \/ x - y = neg_zero.
Proof.
  unfold ffinite. rewrite eqb_spec. intros Hx Heq.
  assert (Hs := sub_spec x y).
  destruct (Prim2SF x) as [[] | [] | | [] mx ex]; try discriminate Hx;
    destruct (Prim2SF y) as [[] | [] | | [] my ey];
    cbv [SFeqb SFcompare] in Heq; try discriminate Heq;
    apply of_spec in Hs; rewrite Hs;
    try (cbn; auto; fail);
    left;
    (destruct (Z.compare_spec ex ey) as [He | He | He];
       try discriminate Heq;
     change (Pos.compare_cont Eq mx my) with (Pos.compare mx my) in Heq;
     destruct (Pos.compare_spec mx my) as [Hm | Hm | Hm];
       try discriminate Heq);
    subst ey my;
    unfold SF64sub; cbn [SFsub cond_Zopp];
    rewrite Z.sub_diag; reflexivity.
Qed.

Lemma eqb_within_tolerance (x y : float) :
  ffinite x -> (x =? y) = true -> within_1e_9 x y = true.
Proof.
  intros Hx Heq. unfold within_1e_9.
  cbn [f64_sub f64_ltb math_Abs Float64_float].
  destruct (eqb_sub_zero x y Hx Heq) as [-> | ->]; vm_compute; reflexivity.
Qed.

(** A number below zero is below every number that is not negative. *)
Lemma negative_leb_false (a c : float) :
  (a <? 0) = true -> fnonneg c -> (c <=? a) = false.
Proof.
  unfold fnonneg. rewrite ltb_spec, leb_spec.
  change (Prim2SF 0) with (S754_zero false).
  destruct (Prim2SF a) as [sa | [] | | [] ma ea]; intros Ha;
    cbv [SFltb SFcompare] in Ha; try discriminate Ha;
    destruct (Prim2SF c) as [sc | [] | | [] mc ec]; intros Hc;
    try discriminate Hc; reflexivity.
Qed.

(** An absolute value is never below zero. *)
Lemma abs_ltb_zero (x : float) : (abs x <? 0) = false.
Proof.
  rewrite ltb_spec, abs_spec.
  change (Prim2SF 0) with (S754_zero false).
  destruct (Prim2SF x) as [s | s | | s m e]; reflexivity.
Qed.

End FloatFacts.

(** ** [Rotate] *)

Section RotateFacts.

Context {F : Type} `{Float64 F} `{GoMath F}.

Local Open Scope f64_scope.

Lemma Rotate_unfold (v : Vector F) (angle : F) :
  let c := math_Cos (- angle) in
  let s := math_Sin (- angle) in
  Rotate v angle = mkVector (c * X v - s * Y v) (s * X v + c * Y v) (lit 0).
Proof. reflexivity. Qed.

(** The method writes [v.X] first and computes [v.Y] from the value it
    has just written. *)
Lemma Vector_Rotate_unfold (v : Vector F) (angle : F) :
  let c := math_Cos (- angle) in
  let s := math_Sin (- angle) in
  let x' := c * X v - s * Y v in
  Vector_Rotate v angle = mkVector x' (s * x' + c * Y v) (Z v).
Proof. reflexivity. Qed.

End RotateFacts.

(** On the exact reading the function keeps the magnitude of a vector in
    the plane [z = 0]. *)
Lemma Rotate_preserves_Mag_plane (v : Vector R) (angle : R) :
  Z v = 0%R -> Mag (Rotate v angle) = Mag v.
Proof.
  intros Hz. rewrite Rotate_unfold, !ExactFacts.Mag_R. cbv zeta.
  cbn [X Y Z math_Cos math_Sin GoMath_R f64_mul f64_sub f64_add f64_neg
       Float64_R].
  rewrite ExactFacts.lit_IZR, Hz. f_equal.
  generalize (sin2_cos2 (- angle)%R). unfold Rsqr.
  set (c := cos (- angle)). set (s := sin (- angle)). intros Hcs.
  replace ((c * X v - s * Y v) * (c * X v - s * Y v)
           + (s * X v + c * Y v) * (s * X v + c * Y v) + 0 * 0)%R
    with ((s * s + c * c) * (X v * X v + Y v * Y v))%R by ring.
  rewrite Hcs. ring.
Qed.

(** C5.  On every reading of [float64] and whatever [math.Cos] and
    [math.Sin] return, the vector returned by the function [Rotate] has the
    z component zero, not the z component of its argument; the method
    [Rotate] leaves the receiver's z component as it was. *)
Theorem Rotate_Z_component :
  forall (F : Type) (A : Float64 F) (M : GoMath F) (v : Vector F) (angle : F),
    Z (Rotate v angle) = lit 0 /\ Z (Vector_Rotate v angle) = Z v.
Proof. intros; split; reflexivity. Qed.

(** On [float], with the values that Go's library returns at [-pi/2]
    (a cosine of about [6.1e-17], a sine of [-1]): the function rotates
    [{1,0,0}] to [{c,-1,0}], the method to [{c,-c,0}], of magnitude
    [8.7e-17]. *)
Lemma Rotate_float_quarter_turn (M : GoMath float) :
  math_Cos (- (math_Pi / lit 2))%f64 = 0x1.1a62633145c07p-54%float ->
  math_Sin (- (math_Pi / lit 2))%f64 = (-1)%float ->
  Rotate (mkVector 1 0 0)%float (math_Pi / lit 2)%f64
  = (mkVector 0x1.1a62633145c07p-54 (-1) 0)%float
  /\ Vector_Rotate (mkVector 1 0 0)%float (math_Pi / lit 2)%f64
     = (mkVector 0x1.1a62633145c07p-54 (-0x1.1a62633145c07p-54) 0)%float
  /\ compare (Mag (Vector_Rotate (mkVector 1 0 0)%float (math_Pi / lit 2)%f64))
             (Mag (mkVector 1 0 0)%float) = false.
Proof.
  intros Hc Hs.
  rewrite Rotate_unfold, Vector_Rotate_unfold. cbv zeta.
  rewrite Hc, Hs.
  repeat split; vm_compute; reflexivity.
Qed.

(** C2.  On the exact reading, at [v = {1,0,0}] and the angle [pi/2] the
    function [Rotate] returns [{0,-1,0}] while the method [Rotate] leaves
    the receiver at [{0,0,0}]: the method computes the new y from the x it
    has already overwritten. *)
Theorem Vector_Rotate_reads_overwritten_X :
  Rotate (mkVector 1 0 0)%R (PI / 2)%R = (mkVector 0 (-1) 0)%R
  /\ Vector_Rotate (mkVector 1 0 0)%R (PI / 2)%R = (mkVector 0 0 0)%R
  /\ forall (F : Type) (A : Float64 F) (M : GoMath F) (v : Vector F) (angle : F),
       Y (Vector_Rotate v angle)
       = (math_Sin (- angle) * X (Vector_Rotate v angle)
          + math_Cos (- angle) * Y v)%f64.
Proof.
  split; [| split].
  - rewrite Rotate_unfold; cbn -[PI cos sin lit].
    rewrite ExactFacts.lit_IZR, cos_neg, sin_neg, cos_PI2, sin_PI2.
    apply ExactFacts.Vector_eq; lra.
  - rewrite Vector_Rotate_unfold; cbn -[PI cos sin].
    rewrite cos_neg, sin_neg, cos_PI2, sin_PI2.
    apply ExactFacts.Vector_eq; lra.
  - intros; reflexivity.
Qed.

(** C1.  Rotation changes the magnitude.
    - The function [Rotate], on the [float] reading and whatever [math.Cos]
      and [math.Sin] return: the rotated [{0,0,1}] has a magnitude that the
      test helper [compare] finds different from that of [{0,0,1}], because
      the z component is dropped.
    - The method [Rotate], on the exact reading: [{1,0,0}] of magnitude 1
      is left at magnitude 0 by a rotation of [pi/2]. *)
Theorem Rotate_changes_magnitude :
  (forall (M : GoMath float) (angle : float),
     compare (Mag (Rotate (mkVector 0 0 1)%float angle))
             (Mag (mkVector 0 0 1)%float) = false)
  /\ Mag (mkVector 1 0 0)%R = 1%R
  /\ Mag (Vector_Rotate (mkVector 1 0 0)%R (PI / 2)%R) = 0%R.
Proof.
  split; [| split].
  - intros M angle.
    rewrite Rotate_unfold.
    cbv [X Y Z f64_mul f64_sub f64_add f64_neg Float64_float].
    set (c := math_Cos _). set (s := math_Sin _).
    destruct (FloatFacts.mul_zero_r c) as [Hc | [Hc | Hc]];
      destruct (FloatFacts.mul_zero_r s) as [Hs | [Hs | Hs]];
      rewrite Hc, Hs; vm_compute; reflexivity.
  - rewrite ExactFacts.Mag_R; cbn [X Y Z].
    replace (1 * 1 + 0 * 0 + 0 * 0)%R with (1 * 1)%R by lra.
    apply ExactFacts.sqrt_sq; lra.
  - rewrite Vector_Rotate_unfold, ExactFacts.Mag_R; cbn -[PI cos sin].
    rewrite cos_neg, sin_neg, cos_PI2, sin_PI2.
    match goal with |- sqrt ?e = _ => replace e with 0%R by lra end.
    apply sqrt_0.
Qed.

(** ** [Equals] *)

(** The two copies of the package answer differently on [{0,0,0}] and
    [{2^-40,0,0}]: equal within the tolerance of [vector.go], not equal for
    the [==] of the second copy. *)
Lemma Equals_policies_disagree :
  Equals (mkVector 0 0 0)%float (mkVector 0x1p-40 0 0)%float = true
  /\ Vector_Equals (mkVector 0 0 0)%float (mkVector 0x1p-40 0 0)%float = true
  /\ Part000.Equals (mkVector 0 0 0)%float (mkVector 0x1p-40 0 0)%float = false
  /\ Part000.Vector_Equals (mkVector 0 0 0)%float (mkVector 0x1p-40 0 0)%float
     = false.
Proof. repeat split; reflexivity. Qed.

(** Neither policy implies the other on [float]: an infinite component is
    [==] to itself, and its difference with itself is NaN. *)
Lemma Equals_policies_disagree_at_infinity :
  Equals (mkVector infinity 0 0)%float (mkVector infinity 0 0)%float = false
  /\ Part000.Equals (mkVector infinity 0 0)%float (mkVector infinity 0 0)%float
     = true.
Proof. split; reflexivity. Qed.

(** On [float] the [==] policy implies the tolerance for vectors with
    finite components. *)
Lemma Part000_Equals_implies_Equals (a b : Vector float) :
  Sign.ffinite (X a) -> Sign.ffinite (Y a) -> Sign.ffinite (Z a) ->
  Part000.Equals a b = true -> Equals a b = true.
Proof.
  intros Hx Hy Hz. unfold Part000.Equals.
  rewrite !andb_true_iff. intros [[Ex Ey] Ez].
  change (Equals a b)
    with (within_1e_9 (X a) (X b) && within_1e_9 (Y a) (Y b)
          && within_1e_9 (Z a) (Z b)).
  rewrite !FloatFacts.eqb_within_tolerance by assumption.
  reflexivity.
Qed.

(** C8, as amended.  Within each copy of the package the function and the
    method apply one policy: in [vector.go] both hold exactly when every
    axis is within the tolerance [1e-9], in the second copy both hold
    exactly when every axis is [==]. *)
Theorem Equals_policy_per_file :
  forall (F : Type) (A : Float64 F) (a b : Vector F),
    Vector_Equals a b = Equals a b
    /\ Part000.Vector_Equals a b = Part000.Equals a b
    /\ (Equals a b = true <->
        within_1e_9 (X a) (X b) = true
        /\ within_1e_9 (Y a) (Y b) = true
        /\ within_1e_9 (Z a) (Z b) = true)
    /\ (Part000.Equals a b = true <->
        (X a == X b)%f64 = true
        /\ (Y a == Y b)%f64 = true
        /\ (Z a == Z b)%f64 = true).
Proof.
  intros F A a b.
  split; [reflexivity | split; [reflexivity | split]].
  - unfold Equals, within_1e_9.
    rewrite !andb_true_iff. tauto.
  - unfold Part000.Equals.
    rewrite !andb_true_iff. tauto.
Qed.

(** ** [String] *)

(** C9.  [String] on [{1,2,3}] prints six digits after each decimal point:
    the verb [%2f] sets a width, not a precision.  The verb [%.2f] would
    print two. *)
Theorem Vector_String_six_decimals :
  Vector_String (mkVector 1 2 3)%float = "{1.000000, 2.000000, 3.000000}"%string
  /\ String_two_decimals (mkVector 1 2 3)%float = "{1.00, 2.00, 3.00}"%string
  /\ Vector_String (mkVector 0.5 (-0.0078125) 0x1p-40)%float
     = "{0.500000, -0.007812, 0.000000}"%string.
Proof. repeat split; vm_compute; reflexivity. Qed.

(** ** [Normalise] *)


(** At the other end the square of [2^-600] underflows to zero and the
    division by the zero magnitude gives an infinite and two NaN
    components. *)
Lemma Normalise_underflow :
  non_zero (mkVector 0x1p-600 0 0)%float = true
  /\ Normalise (mkVector 0x1p-600 0 0)%float = (mkVector infinity nan nan)%float
  /\ within_1e_9 (Mag (Normalise (mkVector 0x1p-600 0 0)%float)) (lit 1)
     = false.
Proof. repeat split; vm_compute; reflexivity. Qed.

(** In range the [float] computation is as expected. *)
Example Normalise_3_4 :
  Normalise (mkVector 3 4 0)%float
  = (mkVector 0x1.3333333333333p-1 0x1.999999999999ap-1 0)%float
  /\ Mag (Normalise (mkVector 3 4 0)%float) = 1%float.
Proof. split; vm_compute; reflexivity. Qed.

Section NormaliseExact.

Local Open Scope R_scope.

Lemma non_zero_R (v : Vector R) :
  non_zero v = true -> 0 < MagSq v.
Proof.
  rewrite ExactFacts.MagSq_R.
  unfold non_zero; rewrite !orb_true_iff, !negb_true_iff, ExactFacts.lit_IZR.
  cbn [f64_eqb Float64_R]; unfold Exact.eqb.
  intros [[Hx | Hy] | Hz].
  - destruct (Req_dec_T (X v) 0); [discriminate | nra].
  - destruct (Req_dec_T (Y v) 0); [discriminate | nra].
  - destruct (Req_dec_T (Z v) 0); [discriminate | nra].
Qed.


End NormaliseExact.



(** ** [Heading] *)

Section HeadingExact.

Local Open Scope R_scope.


Lemma NewVector_two (a b : R) : NewVector [a; b] = mkVector a b 0.
Proof.
  unfold NewVector; cbn [List.length Nat.ltb Nat.leb nth].
  now rewrite ExactFacts.lit_IZR.
Qed.





End HeadingExact.

(** On [float], the numbers that reach [math.Acos]: for [{3,0,4}] the
    function passes [0.6] where the projection gives 1, and for the zero
    vector it passes NaN. *)
Lemma Heading_float_arguments (M : GoMath float) :
  Heading (mkVector 3 0 4)%float = math_Acos 0x1.3333333333333p-1%float
  /\ Vector_Heading (mkVector 3 0 4)%float
     = math_Acos 0x1.3333333333333p-1%float
  /\ Heading_spec (mkVector 3 0 4)%float = math_Acos 1%float
  /\ Heading (mkVector 0 0 0)%float = math_Acos nan.
Proof. repeat split. Qed.




(** ** [FromAngle] *)

Section FromAngleExact.

Local Open Scope R_scope.

Lemma Int_part_unit (r : R) : 0 <= r < 1 -> Int_part r = 0%Z.
Proof.
  intros Hr. symmetry. apply Int_part_spec. cbn. lra.
Qed.

(** [math.Mod] leaves a dividend alone whose magnitude is below the
    divisor, and keeps its sign. *)
Lemma Mod_small_negative (a y : R) :
  - y < a < 0 -> Exact.Mod a y = a.
Proof.
  intros Ha. unfold Exact.Mod, Exact.trunc.
  assert (Hy : 0 < y) by lra.
  assert (Hq : -1 < a / y < 0).
  { split.
    - apply Rmult_lt_reg_r with y; [lra |].
      unfold Rdiv. rewrite Rmult_assoc, Rinv_l by lra. lra.
    - apply Rmult_lt_reg_r with y; [lra |].
      unfold Rdiv. rewrite Rmult_assoc, Rinv_l by lra. lra. }
  destruct (Rle_dec 0 (a / y)) as [Hle | _]; [lra |].
  rewrite Int_part_unit by lra.
  cbn. lra.
Qed.

(** A negative angle above [-2 pi] fails every test of [quadrant] and
    falls through to the final ["ne"]. *)
Lemma quadrant_negative (a : R) :
  - (2 * PI) < a < 0 -> quadrant a = "ne"%string.
Proof.
  intros Ha. unfold quadrant.
  rewrite !ExactFacts.lit_IZR.
  cbn [math_Mod math_Pi GoMath_R f64_mul f64_div Float64_R].
  rewrite Mod_small_negative by lra.
  assert (Hpi := PI_RGT_0).
  rewrite (ExactFacts.leb_false 0 a) by lra.
  rewrite (ExactFacts.leb_false (PI / 2) a) by lra.
  rewrite (ExactFacts.leb_false PI a) by lra.
  reflexivity.
Qed.

Lemma Vector_Normalise_unit_circle (a : R) :
  Vector_Normalise (mkVector (cos a) (sin a) 0) = mkVector (cos a) (sin a) 0.
Proof.
  unfold Vector_Normalise. rewrite ExactFacts.Vector_Mag_R. cbn [X Y Z].
  replace (cos a * cos a + sin a * sin a + 0 * 0) with 1.
  2: { generalize (sin2_cos2 a). unfold Rsqr. lra. }
  rewrite sqrt_1.
  unfold Vector_Div, set_X, set_Y, set_Z.
  cbn [X Y Z f64_div Float64_R].
  apply ExactFacts.Vector_eq; lra.
Qed.

(** For an angle strictly between 0 and [2 pi] the quadrant is ["ne"] and
    both components are made non-negative. *)
Lemma FromAngle_length (theta length : R) :
  0 < theta < 2 * PI ->
  FromAngle [theta; length]
  = Some (mkVector (Rabs (cos theta * length)) (Rabs (sin theta * length)) 0).
Proof.
  intros Ht. unfold FromAngle.
  cbn [List.length Nat.eqb nth].
  rewrite !ExactFacts.lit_IZR, NewVector_two.
  cbn [math_Cos math_Sin math_Abs GoMath_R f64_mul Float64_R].
  replace (-1 * theta) with (- theta) by lra.
  rewrite Vector_Normalise_unit_circle, quadrant_negative by lra.
  rewrite cos_neg, sin_neg.
  cbn [String.eqb Ascii.eqb Bool.eqb].
  f_equal.
  destruct (Req_dec_T length 1) as [H1 | H1].
  - rewrite (ExactFacts.eqb_true _ _ H1). subst length.
    cbv [negb X Y Z set_X set_Y].
    apply ExactFacts.Vector_eq;
      [f_equal; lra | rewrite Rabs_Ropp; f_equal; lra | reflexivity].
  - rewrite (ExactFacts.eqb_false _ _ H1).
    cbv [negb X Y Z set_X set_Y set_Z Vector_Mult f64_mul Float64_R].
    apply ExactFacts.Vector_eq; [reflexivity | | lra].
    replace (- sin theta * length) with (- (sin theta * length)) by lra.
    apply Rabs_Ropp.
Qed.

Lemma FromAngle_unit (theta : R) :
  0 < theta < 2 * PI ->
  FromAngle [theta] = Some (mkVector (Rabs (cos theta)) (Rabs (sin theta)) 0).
Proof.
  intros Ht. unfold FromAngle.
  cbn [List.length Nat.eqb nth].
  rewrite !ExactFacts.lit_IZR, NewVector_two.
  cbn [math_Cos math_Sin math_Abs GoMath_R f64_mul Float64_R].
  replace (-1 * theta) with (- theta) by lra.
  rewrite Vector_Normalise_unit_circle, quadrant_negative by lra.
  rewrite cos_neg, sin_neg.
  rewrite (ExactFacts.eqb_true 1 1 eq_refl).
  cbv [negb X Y Z set_X set_Y].
  f_equal. apply ExactFacts.Vector_eq;
    [reflexivity | apply Rabs_Ropp | reflexivity].
Qed.





End FromAngleExact.

Section FromAngleFloat.

Context {M : GoMath float}.

Local Open Scope f64_scope.

(** On [float], when [math.Mod] returns a negative number, as it does for
    a negative dividend, no test of [quadrant] holds. *)
Lemma quadrant_float_negative (angle : float) :
  (math_Mod angle (lit 2 * math_Pi) <? lit 0) = true ->
  quadrant angle = "ne"%string.
Proof.
  intros Hneg. unfold quadrant.
  set (a := math_Mod angle (lit 2 * math_Pi)) in *.
  change (lit 0 : float) with 0%float in *.
  change (a >=? 0%float) with (PrimFloat.leb 0%float a).
  change (a >=? math_Pi / lit 2) with (PrimFloat.leb (math_Pi / lit 2) a).
  change (a >=? math_Pi) with (PrimFloat.leb math_Pi a).
  rewrite !(FloatFacts.negative_leb_false a) by (assumption || reflexivity).
  reflexivity.
Qed.

(** Then both components of the result are absolute values: whatever
    [math.Cos] and [math.Sin] return and whatever the length, neither is
    below zero. *)
Lemma FromAngle_float_non_negative (theta length : float) :
  (math_Mod (lit (-1) * theta) (lit 2 * math_Pi) <? lit 0) = true ->
  (exists v, FromAngle [theta] = Some v
             /\ (X v <? lit 0) = false /\ (Y v <? lit 0) = false)
  /\ (exists v, FromAngle [theta; length] = Some v
                /\ (X v <? lit 0) = false /\ (Y v <? lit 0) = false).
Proof.
  intros Hneg.
  apply quadrant_float_negative in Hneg.
  unfold FromAngle. rewrite Hneg.
  cbn [String.eqb Ascii.eqb Bool.eqb].
  change (lit 0 : float) with 0%float.
  split; eexists; (split; [reflexivity |]); cbn [X Y set_X set_Y];
    split; apply FloatFacts.abs_ltb_zero.
Qed.

End FromAngleFloat.

(** For a positive angle the result is wrong under every convention.  On
    the exact reading [FromAngle(pi)] is [{1,0,0}], the direction of the
    angle 0, where [(cos(-pi), sin(-pi), 0)] is [{-1,0,0}]; with the length
    2 it is [{2,0,0}] against [{-2,0,0}].  With no argument the call has no
    result. *)
Lemma FromAngle_PI :
  FromAngle [PI] = Some (mkVector 1 0 0)%R
  /\ FromAngle_spec PI 1%R = (mkVector (-1) 0 0)%R
  /\ FromAngle [PI; 2%R] = Some (mkVector 2 0 0)%R
  /\ FromAngle_spec PI 2%R = (mkVector (-2) 0 0)%R
  /\ FromAngle (@nil R) = None.
Proof.
  assert (Hpi := PI_RGT_0).
  split; [| split; [| split; [| split]]].
  - rewrite FromAngle_unit by lra.
    rewrite cos_PI, sin_PI, Rabs_R0.
    f_equal. apply ExactFacts.Vector_eq; [| reflexivity | reflexivity].
    rewrite Rabs_left; lra.
  - unfold FromAngle_spec.
    cbn [math_Cos math_Sin GoMath_R f64_mul f64_neg Float64_R].
    rewrite ExactFacts.lit_IZR, cos_neg, sin_neg, cos_PI, sin_PI.
    apply ExactFacts.Vector_eq; lra.
  - rewrite FromAngle_length by lra.
    rewrite cos_PI, sin_PI. f_equal.
    apply ExactFacts.Vector_eq; [| | reflexivity].
    + rewrite Rabs_left; lra.
    + rewrite Rmult_0_l. apply Rabs_R0.
  - unfold FromAngle_spec.
    cbn [math_Cos math_Sin GoMath_R f64_mul f64_neg Float64_R].
    rewrite ExactFacts.lit_IZR, cos_neg, sin_neg, cos_PI, sin_PI.
    apply ExactFacts.Vector_eq; lra.
  - reflexivity.
Qed.




(** ** [Random2d] and [Random3d] *)

Section RandomExact.

Local Open Scope R_scope.

Lemma in_unit_interval_R (r : R) :
  in_unit_interval r = true -> 0 <= r < 1.
Proof.
  unfold in_unit_interval.
  rewrite andb_true_iff, !ExactFacts.lit_IZR.
  cbn [f64_leb f64_ltb Float64_R]; unfold Exact.leb, Exact.ltb.
  destruct (Rle_dec 0 r), (Rlt_dec r 1); intros [H1 H2];
    try discriminate; lra.
Qed.

Lemma neqb_R (r : R) : (r != lit 0)%f64 = true -> r <> 0.
Proof.
  rewrite negb_true_iff, ExactFacts.lit_IZR.
  cbn [f64_eqb Float64_R]; unfold Exact.eqb.
  destruct (Req_dec_T r 0); [discriminate | auto].
Qed.

(** Dividing non-negative components by a positive magnitude. *)
Lemma Vector_Normalise_non_negative (v : Vector R) :
  0 <= X v -> 0 <= Y v -> 0 <= Z v -> 0 < MagSq v ->
  0 <= X (Vector_Normalise v)
  /\ 0 <= Y (Vector_Normalise v)
  /\ 0 <= Z (Vector_Normalise v)
  /\ (Z v = 0 -> Z (Vector_Normalise v) = 0).
Proof.
  intros Hx Hy Hz Hpos.
  unfold Vector_Normalise. rewrite ExactFacts.Vector_Mag_R.
  rewrite ExactFacts.MagSq_R in Hpos.
  assert (Hm : 0 < sqrt (X v * X v + Y v * Y v + Z v * Z v))
    by now apply sqrt_lt_R0.
  cbv [Vector_Div set_X set_Y set_Z X Y Z f64_div Float64_R].
  destruct v as [x y z]; cbn [X Y Z] in *.
  set (m := sqrt _) in *.
  assert (Hi : 0 < / m) by now apply Rinv_0_lt_compat.
  unfold Rdiv. repeat split; nra.
Qed.

End RandomExact.

(** The same on the exact reading, where the range [[0, 1)] of the draws is
    all that is needed. *)
Lemma Random_components_non_negative_exact :
  forall (Rand : Type) (rand_Float64 : Rand -> R * Rand) (g : Rand),
    (forall s : Rand, in_unit_interval (fst (rand_Float64 s)) = true) ->
    let r1 := fst (rand_Float64 g) in
    let g1 := snd (rand_Float64 g) in
    let r2 := fst (rand_Float64 g1) in
    let g2 := snd (rand_Float64 g1) in
    let r3 := fst (rand_Float64 g2) in
    ((r1 != lit 0)%f64 || (r2 != lit 0)%f64 = true ->
     let v := fst (Random2d rand_Float64 g) in
     Z v = 0%R /\ (0 <= X v)%R /\ (0 <= Y v)%R)
    /\ ((r1 != lit 0)%f64 || (r2 != lit 0)%f64 || (r3 != lit 0)%f64 = true ->
        let v := fst (Random3d rand_Float64 g) in
        (0 <= X v)%R /\ (0 <= Y v)%R /\ (0 <= Z v)%R).
Proof.
  intros Rand gen g Hrange r1 g1 r2 g2 r3.
  assert (H1 : (0 <= r1 < 1)%R) by apply in_unit_interval_R, Hrange.
  assert (H2 : (0 <= r2 < 1)%R) by apply in_unit_interval_R, Hrange.
  assert (H3 : (0 <= r3 < 1)%R) by apply in_unit_interval_R, Hrange.
  split.
  - intros Hnz v.
    assert (Hv : v = Vector_Normalise (mkVector r1 r2 0%R)).
    { subst v r1 g1 r2. unfold Random2d.
      destruct (gen g) as [a ga]; cbn [fst snd].
      destruct (gen ga) as [b gb]; cbn [fst snd].
      now rewrite NewVector_two. }
    rewrite Hv.
    assert (Hpos : (0 < MagSq (mkVector r1 r2 0%R))%R).
    { rewrite ExactFacts.MagSq_R; cbn [X Y Z].
      apply orb_true_iff in Hnz as [Hn | Hn]; apply neqb_R in Hn; nra. }
    destruct (Vector_Normalise_non_negative (mkVector r1 r2 0%R)
                (proj1 H1) (proj1 H2) (Rle_refl 0) Hpos)
      as (Hx & Hy & _ & Hz).
    repeat split; auto.
  - intros Hnz v.
    assert (Hv : v = Vector_Normalise (mkVector r1 r2 r3)).
    { subst v r1 g1 r2 g2 r3. unfold Random3d.
      destruct (gen g) as [a ga]; cbn [fst snd].
      destruct (gen ga) as [b gb]; cbn [fst snd].
      destruct (gen gb) as [c gc]; cbn [fst snd].
      reflexivity. }
    rewrite Hv.
    assert (Hpos : (0 < MagSq (mkVector r1 r2 r3))%R).
    { rewrite ExactFacts.MagSq_R; cbn [X Y Z].
      rewrite !orb_true_iff in Hnz.
      destruct Hnz as [[Hn | Hn] | Hn]; apply neqb_R in Hn; nra. }
    destruct (Vector_Normalise_non_negative (mkVector r1 r2 r3)
                (proj1 H1) (proj1 H2) (proj1 H3) Hpos)
      as (Hx & Hy & Hz & _).
    repeat split; auto.
Qed.

(** On [float]: the components of a normalised vector of draws. *)
Lemma Vector_Normalise_draws (r1 r2 r3 : float) :
  Sign.funit r1 -> Sign.funit r2 -> Sign.funit r3 ->
  (r1 != lit 0)%f64 || (r2 != lit 0)%f64 || (r3 != lit 0)%f64 = true ->
  (lit 0 <=? X (Vector_Normalise (mkVector r1 r2 r3)))%f64 = true
  /\ (lit 0 <=? Y (Vector_Normalise (mkVector r1 r2 r3)))%f64 = true
  /\ (lit 0 <=? Z (Vector_Normalise (mkVector r1 r2 r3)))%f64 = true
  /\ (r3 = 0%float -> Z (Vector_Normalise (mkVector r1 r2 r3)) = 0%float).
Proof.
  intros U1 U2 U3 Hnz.
  assert (Hm := FloatFacts.magnitude_pos r1 r2 r3 U1 U2 U3 Hnz).
  set (m := PrimFloat.sqrt _) in Hm.
  change (X (Vector_Normalise (mkVector r1 r2 r3))) with (r1 / m)%float.
  change (Y (Vector_Normalise (mkVector r1 r2 r3))) with (r2 / m)%float.
  change (Z (Vector_Normalise (mkVector r1 r2 r3))) with (r3 / m)%float.
  change (lit 0 : float) with 0%float.
  repeat split.
  - apply FloatFacts.fnonneg_leb, FloatFacts.div_nonneg; assumption.
  - apply FloatFacts.fnonneg_leb, FloatFacts.div_nonneg; assumption.
  - apply FloatFacts.fnonneg_leb, FloatFacts.div_nonneg; assumption.
  - intros ->. now apply FloatFacts.div_zero.
Qed.

(** C10.  On [float], for a random source whose draws are values of
    [rand.Float64]: when the two draws of [Random2d] are not both zero, the
    vector it returns has the z component zero and non-negative x and y
    components; when the three draws of [Random3d] are not all zero, the
    vector it returns has three non-negative components. *)
Theorem Random_components_non_negative :
  forall (Rand : Type) (rand_Float64 : Rand -> float * Rand) (g : Rand),
    (forall s : Rand, rand_Float64_value (fst (rand_Float64 s)) = true) ->
    let r1 := fst (rand_Float64 g) in
    let g1 := snd (rand_Float64 g) in
    let r2 := fst (rand_Float64 g1) in
    let g2 := snd (rand_Float64 g1) in
    let r3 := fst (rand_Float64 g2) in
    ((r1 != lit 0)%f64 || (r2 != lit 0)%f64 = true ->
     let v := fst (Random2d rand_Float64 g) in
     Z v = 0%float
     /\ (lit 0 <=? X v)%f64 = true
     /\ (lit 0 <=? Y v)%f64 = true)
    /\ ((r1 != lit 0)%f64 || (r2 != lit 0)%f64 || (r3 != lit 0)%f64 = true ->
        let v := fst (Random3d rand_Float64 g) in
        (lit 0 <=? X v)%f64 = true
        /\ (lit 0 <=? Y v)%f64 = true
        /\ (lit 0 <=? Z v)%f64 = true).
Proof.
  intros Rand gen g Hrange r1 g1 r2 g2 r3.
  assert (U1 : Sign.funit r1)
    by apply FloatFacts.rand_Float64_value_funit, Hrange.
  assert (U2 : Sign.funit r2)
    by apply FloatFacts.rand_Float64_value_funit, Hrange.
  assert (U3 : Sign.funit r3)
    by apply FloatFacts.rand_Float64_value_funit, Hrange.
  split.
  - intros Hnz v.
    assert (Hv : v = Vector_Normalise (mkVector r1 r2 0%float)).
    { subst v r1 g1 r2. unfold Random2d.
      destruct (gen g) as [a ga]; cbn [fst snd].
      destruct (gen ga) as [b gb]; cbn [fst snd].
      reflexivity. }
    rewrite Hv.
    destruct (Vector_Normalise_draws r1 r2 0%float U1 U2 FloatFacts.zero_funit)
      as (Hx & Hy & _ & Hz).
    + rewrite orb_true_iff. now left.
    + auto.
  - intros Hnz v.
    assert (Hv : v = Vector_Normalise (mkVector r1 r2 r3)).
    { subst v r1 g1 r2 g2 r3. unfold Random3d.
      destruct (gen g) as [a ga]; cbn [fst snd].
      destruct (gen ga) as [b gb]; cbn [fst snd].
      destruct (gen gb) as [c gc]; cbn [fst snd].
      reflexivity. }
    rewrite Hv.
    destruct (Vector_Normalise_draws r1 r2 r3 U1 U2 U3 Hnz)
      as (Hx & Hy & Hz & _).
    auto.
Qed.

Lemma Random_components_non_negative_witness :
  Z (fst (Random2d (constant_source 0.5%float) tt)) = 0%float
  /\ (lit 0 <=? X (fst (Random2d (constant_source 0.5%float) tt)))%f64 = true
  /\ (lit 0 <=? Y (fst (Random2d (constant_source 0.5%float) tt)))%f64 = true.
Proof.
  exact (proj1 (Random_components_non_negative
                  unit (constant_source 0.5%float) tt (fun _ => eq_refl))
               eq_refl).
Defined.

(** The vector of that example, and one with a draw on the grid's first
    step. *)
Example Random2d_constant_source :
  fst (Random2d (constant_source 0.5%float) tt)
  = (mkVector 0x1.6a09e667f3bccp-1 0x1.6a09e667f3bccp-1 0)%float
  /\ fst (Random2d (constant_source 0x1p-63%float) tt)
     = (mkVector 0x1.6a09e667f3bccp-1 0x1.6a09e667f3bccp-1 0)%float.
Proof. split; vm_compute; reflexivity. Qed.

(** * Laws of binary64 arithmetic used by the package *)

Module FloatLaws.

Import Sign.
Import FloatFacts.

Local Open Scope Z_scope.
Local Abbreviation bra64 := (binary_round_aux prec emax).

(** *** Laws of the specification *)

Lemma SFmul_comm (x y : spec_float) : SF64mul x y = SF64mul y x.
Proof.
  unfold SF64mul.
  destruct x as [sx | sx | | sx mx ex], y as [sy | sy | | sy my ey];
    cbn [SFmul]; rewrite ?(xorb_comm sx sy); try reflexivity.
  now rewrite (Pos.mul_comm mx my), (Z.add_comm ex ey).
Qed.

Lemma SFadd_comm (x y : spec_float) : SF64add x y = SF64add y x.
Proof.
  unfold SF64add.
  destruct x as [[] | [] | | sx mx ex], y as [[] | [] | | sy my ey];
    cbn [SFadd]; try reflexivity.
  rewrite (Z.min_comm ey ex). f_equal. apply Z.add_comm.
Qed.

(** The sign given to [binary_round_aux] only labels the result. *)
Lemma bra_abs (s s' : bool) (m e : BinNums.Z) (l : location) :
  SFabs (bra64 s m e l) = SFabs (bra64 s' m e l).
Proof.
  unfold binary_round_aux.
  destruct (shr_fexp prec emax m e l) as [mrs' e'].
  destruct (shr_fexp prec emax _ e' loc_Exact) as [mrs'' e''].
  destruct (shr_m mrs'') as [| p | p]; try reflexivity.
  destruct (e'' <=? emax - prec); reflexivity.
Qed.

Lemma binary_normalize_opp_abs (m e : BinNums.Z) :
  SFabs (binary_normalize prec emax (- m) e false)
  = SFabs (binary_normalize prec emax m e false).
Proof.
  destruct m as [| p | p]; cbn [Z.opp binary_normalize]; try reflexivity;
    unfold binary_round;
    destruct (shl_align p e _) as [mz ez]; apply bra_abs.
Qed.

(** Exchanging the operands of a subtraction changes at most the sign. *)
Lemma SFsub_swap_abs (x y : spec_float) :
  SFabs (SF64sub x y) = SFabs (SF64sub y x).
Proof.
  unfold SF64sub.
  destruct x as [[] | [] | | sx mx ex], y as [[] | [] | | sy my ey];
    cbn [SFsub SFabs]; try reflexivity.
  rewrite (Z.min_comm ey ex).
  rewrite <- binary_normalize_opp_abs. f_equal. f_equal. lia.
Qed.

(** A square depends on the magnitude only. *)
Lemma SFmul_square_abs (d : spec_float) :
  SF64mul d d = SF64mul (SFabs d) (SFabs d).
Proof.
  unfold SF64mul. destruct d as [[] | [] | | [] m e]; reflexivity.
Qed.

Lemma SFmul_square_not_negative (d : spec_float) :
  not_negative (SF64mul d d) = true.
Proof.
  unfold SF64mul. destruct d as [[] | [] | | s m e]; try reflexivity.
  cbn [SFmul]. rewrite xorb_nilpotent.
  assert (H := bra_cases false (Zpos (m * m)) (e + e) loc_Exact ltac:(lia)).
  destruct (bra64 false (Zpos (m * m)) (e + e) loc_Exact)
    as [s1 | s1 | | s1 m1 e1]; try contradiction; subst; reflexivity.
Qed.

Lemma not_negative_cases (x : spec_float) :
  not_negative x = true -> x = S754_nan \/ is_nonneg x = true.
Proof. destruct x as [s | [] | | [] m e]; cbn; auto; discriminate. Qed.

Lemma is_nonneg_not_negative (x : spec_float) :
  is_nonneg x = true -> not_negative x = true.
Proof. destruct x as [s | [] | | [] m e]; cbn; auto. Qed.

Lemma SFadd_not_negative (x y : spec_float) :
  valid_binary x = true -> valid_binary y = true ->
  not_negative x = true -> not_negative y = true ->
  not_negative (SF64add x y) = true.
Proof.
  intros Vx Vy Hx Hy.
  destruct (not_negative_cases x Hx) as [-> | Nx];
    [destruct y as [[] | [] | | [] my ey]; reflexivity |].
  destruct (not_negative_cases y Hy) as [-> | Ny];
    [destruct x as [[] | [] | | [] mx ex]; reflexivity |].
  apply is_nonneg_not_negative.
  now apply SFadd_nonneg.
Qed.

Lemma SFsqrt_not_negative (x : spec_float) :
  valid_binary x = true ->
  not_negative x = true -> not_negative (SF64sqrt x) = true.
Proof.
  intros Vx Hx.
  destruct x as [s | [] | | [] m e]; try discriminate Hx; try reflexivity.
  apply is_nonneg_not_negative, is_pos_nonneg.
  now apply SFsqrt_pos.
Qed.

Lemma SFdiv_by_zero (x : spec_float) (s : bool) :
  is_finite (SF64div x (S754_zero s)) = false.
Proof. destruct x as [sx | sx | | sx mx ex]; reflexivity. Qed.

Lemma SFcompare_refl (x : spec_float) :
  x <> S754_nan -> SFcompare x x = Some Eq.
Proof.
  destruct x as [s | [] | | [] m e]; intros Hx; try reflexivity;
    try contradiction; cbn [SFcompare];
    rewrite Z.compare_refl;
    change (Pos.compare_cont Eq m m) with (Pos.compare m m);
    rewrite Pos.compare_refl; reflexivity.
Qed.

Lemma SFeqb_sym (x y : spec_float) : SFeqb x y = SFeqb y x.
Proof.
  unfold SFeqb.
  destruct x as [[] | [] | | [] mx ex], y as [[] | [] | | [] my ey];
    cbn [SFcompare]; try reflexivity;
    rewrite (Z.compare_antisym ex ey);
    change (Pos.compare_cont Eq my mx) with (Pos.compare my mx);
    change (Pos.compare_cont Eq mx my) with (Pos.compare mx my);
    rewrite (Pos.compare_antisym mx my);
    destruct (ex ?= ey), (mx ?= my)%positive; reflexivity.
Qed.

(** *** Laws of the operations on [float] *)

Local Close Scope Z_scope.
Local Open Scope float_scope.

Lemma fmul_comm (a b : float) : a * b = b * a.
Proof. apply Prim2SF_inj. rewrite !mul_spec. apply SFmul_comm. Qed.

Lemma fadd_comm (a b : float) : a + b = b + a.
Proof. apply Prim2SF_inj. rewrite !add_spec. apply SFadd_comm. Qed.

Lemma fsub_swap_abs (a b : float) : abs (a - b) = abs (b - a).
Proof.
  apply Prim2SF_inj. rewrite !abs_spec, !sub_spec. apply SFsub_swap_abs.
Qed.

Lemma fsub_swap_square (a b : float) :
  (a - b) * (a - b) = (b - a) * (b - a).
Proof.
  apply Prim2SF_inj. rewrite !mul_spec.
  rewrite (SFmul_square_abs (Prim2SF (a - b))).
  rewrite (SFmul_square_abs (Prim2SF (b - a))).
  rewrite <- !abs_spec, (fsub_swap_abs a b). reflexivity.
Qed.

Lemma fsquare_not_negative (a : float) :
  not_negative (Prim2SF (a * a)) = true.
Proof. rewrite mul_spec. apply SFmul_square_not_negative. Qed.

Lemma fadd_not_negative (a b : float) :
  not_negative (Prim2SF a) = true -> not_negative (Prim2SF b) = true ->
  not_negative (Prim2SF (a + b)) = true.
Proof.
  intros Ha Hb. rewrite add_spec.
  apply SFadd_not_negative; auto using Prim2SF_valid.
Qed.

Lemma fsqrt_not_negative (a : float) :
  not_negative (Prim2SF a) = true ->
  not_negative (Prim2SF (PrimFloat.sqrt a)) = true.
Proof.
  intros Ha. rewrite sqrt_spec.
  apply SFsqrt_not_negative; auto using Prim2SF_valid.
Qed.

Lemma not_negative_ltb (a : float) :
  not_negative (Prim2SF a) = true -> (a <? 0) = false.
Proof.
  rewrite ltb_spec. change (Prim2SF 0) with (S754_zero false).
  destruct (Prim2SF a) as [s | [] | | [] m e]; intros Ha;
    try discriminate Ha; reflexivity.
Qed.

Lemma eqb_zero_spec (d : float) :
  (d =? 0) = true -> exists s, Prim2SF d = S754_zero s.
Proof.
  rewrite eqb_spec. change (Prim2SF 0) with (S754_zero false).
  destruct (Prim2SF d) as [s | [] | | [] m e]; intros Hd;
    try discriminate Hd. now exists s.
Qed.

Lemma fdiv_by_zero (x d : float) :
  (d =? 0) = true -> is_finite (Prim2SF (x / d)) = false.
Proof.
  intros Hd. destruct (eqb_zero_spec d Hd) as [s Hs].
  rewrite div_spec, Hs. apply SFdiv_by_zero.
Qed.

Lemma feqb_sym (a b : float) : (a =? b) = (b =? a).
Proof. rewrite !eqb_spec. apply SFeqb_sym. Qed.

Lemma feqb_refl (a : float) :
  (a =? a) = true <-> Prim2SF a <> S754_nan.
Proof.
  rewrite eqb_spec. unfold SFeqb. split.
  - intros H Hn. rewrite Hn in H. discriminate H.
  - intros Hn. now rewrite SFcompare_refl.
Qed.

Lemma fsub_not_finite (a : float) :
  is_finite (Prim2SF a) = false -> Prim2SF (a - a) = S754_nan.
Proof.
  rewrite sub_spec.
  destruct (Prim2SF a) as [s | [] | | s m e]; intros Ha;
    try discriminate Ha; reflexivity.
Qed.

(** A number is within the tolerance of itself exactly when it is
    finite. *)
Lemma within_self (a : float) : within_1e_9 a a = true <-> ffinite a.
Proof.
  split.
  - intros Hw. unfold ffinite.
    destruct (is_finite (Prim2SF a)) eqn:Hf; [reflexivity |].
    apply fsub_not_finite in Hf. apply of_spec in Hf.
    unfold within_1e_9 in Hw.
    cbn [f64_sub f64_ltb math_Abs Float64_float] in Hw.
    rewrite Hf in Hw. vm_compute in Hw. discriminate Hw.
  - intros Hf. apply eqb_within_tolerance; [assumption |].
    apply feqb_refl. unfold ffinite in Hf. intros Hn.
    rewrite Hn in Hf. discriminate Hf.
Qed.

Lemma within_sym (a b : float) : within_1e_9 a b = within_1e_9 b a.
Proof.
  unfold within_1e_9. cbn [f64_sub f64_ltb math_Abs Float64_float].
  now rewrite (fsub_swap_abs a b).
Qed.

End FloatLaws.

(** ** The operations on [float]: helper lemmas *)

Section FloatVectors.

Local Open Scope float_scope.

Lemma Dist_swap (a b : Vector float) : Dist a b = Dist b a.
Proof.
  unfold Dist. cbn [f64_sub f64_mul f64_add math_Sqrt Float64_float].
  rewrite (FloatLaws.fsub_swap_square (X a) (X b)).
  rewrite (FloatLaws.fsub_swap_square (Y a) (Y b)).
  rewrite (FloatLaws.fsub_swap_square (Z a) (Z b)).
  reflexivity.
Qed.

Lemma Vector_DotProduct_swap (a b : Vector float) :
  Vector_DotProduct a b = Vector_DotProduct b a.
Proof.
  unfold Vector_DotProduct. cbn [f64_mul f64_add Float64_float].
  rewrite (FloatLaws.fmul_comm (X a) (X b)).
  rewrite (FloatLaws.fmul_comm (Y a) (Y b)).
  rewrite (FloatLaws.fmul_comm (Z a) (Z b)).
  reflexivity.
Qed.

Lemma AngleBetween_swap (M : GoMath float) (a b : Vector float) :
  AngleBetween a b = AngleBetween b a.
Proof.
  unfold AngleBetween.
  rewrite (Vector_DotProduct_swap a b).
  cbn [f64_mul f64_div Float64_float].
  now rewrite (FloatLaws.fmul_comm (Vector_Mag a) (Vector_Mag b)).
Qed.

Lemma sum_of_squares_not_negative (x y z : float) :
  Sign.not_negative (Prim2SF (x * x + y * y + z * z)) = true.
Proof.
  repeat apply FloatLaws.fadd_not_negative;
    apply FloatLaws.fsquare_not_negative.
Qed.

Lemma MagSq_not_negative (v : Vector float) :
  Sign.not_negative (Prim2SF (MagSq v)) = true.
Proof. apply sum_of_squares_not_negative. Qed.

Lemma Mag_not_negative (v : Vector float) :
  Sign.not_negative (Prim2SF (Mag v)) = true.
Proof.
  apply FloatLaws.fsqrt_not_negative, sum_of_squares_not_negative.
Qed.

Lemma Dist_not_negative (a b : Vector float) :
  Sign.not_negative (Prim2SF (Dist a b)) = true.
Proof.
  apply FloatLaws.fsqrt_not_negative, sum_of_squares_not_negative.
Qed.

(** A draw that is [==] to zero is one of the two zeros. *)
Lemma eqb_zero_cases (r : float) :
  (r =? 0) = true -> r = 0 \/ r = neg_zero.
Proof.
  intros Hr. destruct (FloatLaws.eqb_zero_spec r Hr) as [s Hs].
  apply FloatFacts.of_spec in Hs. rewrite Hs. destruct s; cbn; auto.
Qed.

End FloatVectors.

(** * Further properties of the package *)

(** ** Symmetry on [float] *)

(** X1.  On [float], the distance does not depend on the order of its two
    vectors, for the function and for the method: exchanging the operands of
    each subtraction changes at most a sign, which the square removes. *)
Theorem Dist_symmetric :
  forall a b : Vector float,
    Dist a b = Dist b a /\ Vector_Dist a b = Vector_Dist b a.
Proof. intros a b. split; apply Dist_swap. Qed.

(** X2.  On [float], the dot product does not depend on the order of its
    two vectors, for the function and for the method. *)
Theorem DotProduct_symmetric :
  forall a b : Vector float,
    DotProduct a b = DotProduct b a
    /\ Vector_DotProduct a b = Vector_DotProduct b a.
Proof. intros a b. split; apply Vector_DotProduct_swap. Qed.

(** X3.  On [float] and whatever [math.Acos] returns, the angle between two
    vectors does not depend on their order, for the function and for the
    method. *)
Theorem AngleBetween_symmetric :
  forall (M : GoMath float) (a b : Vector float),
    AngleBetween a b = AngleBetween b a
    /\ Vector_AngleBetween a b = Vector_AngleBetween b a.
Proof. intros M a b. split; apply AngleBetween_swap. Qed.

(** X4.  On [float] and whatever [math.Acos] returns, the function [Heading]
    and the method [Heading] return the same number, although one passes
    the vector first and the other the base [{10,0,0}]. *)
Theorem Heading_forms_agree :
  forall (M : GoMath float) (v : Vector float),
    Vector_Heading v = Heading v.
Proof.
  intros M v. unfold Vector_Heading, Heading.
  symmetry. apply AngleBetween_swap.
Qed.

(** X5.  On [float], [MagSq], [Mag] and [Dist] never return a number below
    zero, whatever the components: the result is zero, positive, [+Inf] or
    NaN. *)
Theorem magnitudes_never_negative :
  forall a b : Vector float,
    (MagSq a <? lit 0)%f64 = false
    /\ (Vector_MagSq a <? lit 0)%f64 = false
    /\ (Mag a <? lit 0)%f64 = false
    /\ (Vector_Mag a <? lit 0)%f64 = false
    /\ (Dist a b <? lit 0)%f64 = false
    /\ (Vector_Dist a b <? lit 0)%f64 = false.
Proof.
  intros a b. change (lit 0 : float) with 0%float.
  repeat split; apply FloatLaws.not_negative_ltb.
  - apply MagSq_not_negative.
  - apply MagSq_not_negative.
  - apply Mag_not_negative.
  - apply Mag_not_negative.
  - apply Dist_not_negative.
  - apply Dist_not_negative.
Qed.

(** X6.  On [float], both policies of [Equals] are symmetric, in the
    function and in the method form. *)
Theorem Equals_symmetric :
  forall a b : Vector float,
    Equals a b = Equals b a
    /\ Vector_Equals a b = Vector_Equals b a
    /\ Part000.Equals a b = Part000.Equals b a
    /\ Part000.Vector_Equals a b = Part000.Vector_Equals b a.
Proof.
  intros a b.
  assert (Ht : Equals a b = Equals b a).
  { change (Equals a b)
      with (within_1e_9 (X a) (X b) && within_1e_9 (Y a) (Y b)
            && within_1e_9 (Z a) (Z b)).
    change (Equals b a)
      with (within_1e_9 (X b) (X a) && within_1e_9 (Y b) (Y a)
            && within_1e_9 (Z b) (Z a)).
    now rewrite (FloatLaws.within_sym (X a)), (FloatLaws.within_sym (Y a)),
      (FloatLaws.within_sym (Z a)). }
  assert (He : Part000.Equals a b = Part000.Equals b a).
  { unfold Part000.Equals. cbn [f64_eqb Float64_float].
    now rewrite (FloatLaws.feqb_sym (X a)), (FloatLaws.feqb_sym (Y a)),
      (FloatLaws.feqb_sym (Z a)). }
  repeat split; assumption.
Qed.

(** X7.  On [float], a vector [Equals] itself under the tolerance of
    [vector.go] exactly when its three components are finite, and under the
    [==] of the second copy exactly when none is NaN. *)
Theorem Equals_reflexive_iff :
  forall v : Vector float,
    (Equals v v = true <->
     Sign.ffinite (X v) /\ Sign.ffinite (Y v) /\ Sign.ffinite (Z v))
    /\ (Part000.Equals v v = true <->
        Prim2SF (X v) <> S754_nan /\ Prim2SF (Y v) <> S754_nan
        /\ Prim2SF (Z v) <> S754_nan).
Proof.
  intros v. split.
  - change (Equals v v)
      with (within_1e_9 (X v) (X v) && within_1e_9 (Y v) (Y v)
            && within_1e_9 (Z v) (Z v)).
    rewrite !andb_true_iff, !FloatLaws.within_self. tauto.
  - unfold Part000.Equals. cbn [f64_eqb Float64_float].
    rewrite !andb_true_iff, !FloatLaws.feqb_refl. tauto.
Qed.

(** ** Division by zero on [float] *)

(** X8.  On [float], dividing a vector by a zero of either sign leaves no
    finite component, in the function and in the method: each is an
    infinity or NaN. *)
Theorem Div_by_zero :
  forall (v : Vector float) (d : float),
    (d == lit 0)%f64 = true ->
    Sign.is_finite (Prim2SF (X (Div v d))) = false
    /\ Sign.is_finite (Prim2SF (Y (Div v d))) = false
    /\ Sign.is_finite (Prim2SF (Z (Div v d))) = false
    /\ Vector_Div v d = Div v d.
Proof.
  intros v d Hd. change (d == lit 0)%f64 with (d =? 0)%float in Hd.
  repeat split; apply FloatLaws.fdiv_by_zero; assumption.
Qed.

Lemma Div_by_zero_witness :
  Sign.is_finite (Prim2SF (X (Div (mkVector 1 0 0)%float neg_zero))) = false.
Proof.
  exact (proj1 (Div_by_zero (mkVector 1 0 0)%float neg_zero eq_refl)).
Defined.

(** X9.  On [float], [Normalise] has no guard: whenever the magnitude is
    computed as zero (the zero vector, or components whose squares
    underflow), no component of the result is finite, in the function and
    in the method. *)
Theorem Normalise_zero_magnitude :
  forall v : Vector float,
    (Mag v == lit 0)%f64 = true ->
    Sign.is_finite (Prim2SF (X (Normalise v))) = false
    /\ Sign.is_finite (Prim2SF (Y (Normalise v))) = false
    /\ Sign.is_finite (Prim2SF (Z (Normalise v))) = false
    /\ Vector_Normalise v = Normalise v.
Proof.
  intros v Hm. change (Mag v == lit 0)%f64 with (Mag v =? 0)%float in Hm.
  repeat split; apply FloatLaws.fdiv_by_zero; assumption.
Qed.

Lemma Normalise_zero_magnitude_witness :
  Sign.is_finite
    (Prim2SF (X (Normalise (mkVector 0x1p-600 0 0)%float))) = false.
Proof.
  exact (proj1 (Normalise_zero_magnitude (mkVector 0x1p-600 0 0)%float
                  eq_refl)).
Defined.

(** X10.  On [float], when every draw is a zero, [Random2d] and [Random3d]
    return the vector of three NaN: the magnitude is zero and each
    component is divided by it. *)
Theorem Random_zero_draws :
  forall (Rand : Type) (rand_Float64 : Rand -> float * Rand) (g : Rand),
    let r1 := fst (rand_Float64 g) in
    let g1 := snd (rand_Float64 g) in
    let r2 := fst (rand_Float64 g1) in
    let g2 := snd (rand_Float64 g1) in
    let r3 := fst (rand_Float64 g2) in
    ((r1 == lit 0)%f64 && (r2 == lit 0)%f64 = true ->
     fst (Random2d rand_Float64 g) = mkVector nan nan nan)
    /\ ((r1 == lit 0)%f64 && (r2 == lit 0)%f64 && (r3 == lit 0)%f64 = true ->
        fst (Random3d rand_Float64 g) = mkVector nan nan nan).
Proof.
  intros Rand gen g r1 g1 r2 g2 r3.
  change (lit 0 : float) with 0%float.
  split.
  - rewrite andb_true_iff. intros [H1 H2].
    assert (Hv : fst (Random2d gen g)
                 = Vector_Normalise (mkVector r1 r2 0%float)).
    { subst r1 g1 r2. unfold Random2d.
      destruct (gen g) as [a ga]; cbn [fst snd].
      destruct (gen ga) as [b gb]; reflexivity. }
    rewrite Hv.
    destruct (eqb_zero_cases r1 H1) as [-> | ->];
      destruct (eqb_zero_cases r2 H2) as [-> | ->]; reflexivity.
  - rewrite !andb_true_iff. intros [[H1 H2] H3].
    assert (Hv : fst (Random3d gen g)
                 = Vector_Normalise (mkVector r1 r2 r3)).
    { subst r1 g1 r2 g2 r3. unfold Random3d.
      destruct (gen g) as [a ga]; cbn [fst snd].
      destruct (gen ga) as [b gb]; cbn [fst snd].
      destruct (gen gb) as [c gc]; reflexivity. }
    rewrite Hv.
    destruct (eqb_zero_cases r1 H1) as [-> | ->];
      destruct (eqb_zero_cases r2 H2) as [-> | ->];
      destruct (eqb_zero_cases r3 H3) as [-> | ->]; reflexivity.
Qed.

Lemma Random_zero_draws_witness :
  fst (Random2d (constant_source 0%float) tt) = mkVector nan nan nan.
Proof.
  exact (proj1 (Random_zero_draws unit (constant_source 0%float) tt) eq_refl).
Defined.

(** ** The operations on the exact reading: helper lemmas *)

Section ExactVectors.

Local Open Scope R_scope.


Lemma Mag_pos_R (v : Vector R) : non_zero v = true -> 0 < Mag v.
Proof.
  intros Hv. apply non_zero_R in Hv.
  rewrite ExactFacts.Mag_R. rewrite ExactFacts.MagSq_R in Hv.
  now apply sqrt_lt_R0.
Qed.

Lemma Mag_Mult_R (v : Vector R) (k : R) : Mag (Mult v k) = Rabs k * Mag v.
Proof.
  rewrite !ExactFacts.Mag_R.
  cbn [Mult X Y Z f64_mul Float64_R].
  replace (X v * k * (X v * k) + Y v * k * (Y v * k) + Z v * k * (Z v * k))
    with (k * k * (X v * X v + Y v * Y v + Z v * Z v)) by ring.
  rewrite sqrt_mult_alt by nra.
  f_equal. apply sqrt_Rsqr_abs.
Qed.



Lemma non_zero_of_Mag (v : Vector R) : Mag v <> 0 -> non_zero v = true.
Proof.
  intros Hm. unfold non_zero.
  rewrite !orb_true_iff, !negb_true_iff, ExactFacts.lit_IZR.
  destruct (Req_dec_T (X v) 0) as [Hx | Hx];
    [| left; left; now apply ExactFacts.eqb_false].
  destruct (Req_dec_T (Y v) 0) as [Hy | Hy];
    [| left; right; now apply ExactFacts.eqb_false].
  destruct (Req_dec_T (Z v) 0) as [Hz | Hz];
    [| right; now apply ExactFacts.eqb_false].
  exfalso. apply Hm. rewrite ExactFacts.Mag_R, Hx, Hy, Hz.
  replace (0 * 0 + 0 * 0 + 0 * 0) with 0 by ring. apply sqrt_0.
Qed.










End ExactVectors.

(** X11.  On [float], addition of vectors does not depend on the order of
    its operands, in the function, and the method leaves in the receiver
    what the function returns. *)
Theorem Add_commutative :
  forall a b : Vector float,
    Add a b = Add b a /\ Vector_Add a b = Add b a.
Proof.
  intros a b.
  assert (H : Add a b = Add b a).
  { unfold Add. cbn [f64_add Float64_float].
    now rewrite (FloatLaws.fadd_comm (X a)), (FloatLaws.fadd_comm (Y a)),
      (FloatLaws.fadd_comm (Z a)). }
  split; [exact H | exact H].
Qed.

(** ** Functions and methods *)

(** X12.  On every reading of [float64], each method of [Add], [Sub],
    [Mult], [Div], [Normalise], [Limit] and [SetMag] leaves in the receiver
    the vector that the function of the same name returns, and [Copy]
    returns the vector itself. *)
Theorem methods_agree_with_functions :
  forall (F : Type) (A : Float64 F) (v other : Vector F) (m : F),
    Vector_Add v other = Add v other
    /\ Vector_Sub v other = Sub v other
    /\ Vector_Mult v m = Mult v m
    /\ Vector_Div v m = Div v m
    /\ Vector_Normalise v = Normalise v
    /\ Vector_Limit v m = Limit v m
    /\ Vector_SetMag v m = SetMag v m
    /\ Vector_Copy v = v.
Proof.
  intros F A v other m.
  repeat split; try reflexivity.
  destruct v; reflexivity.
Qed.

(** ** Argument lists *)

(** X13.  On every reading, [NewVector] never reads past its argument list:
    a missing component is zero, and arguments after the third are
    ignored. *)
Theorem NewVector_arguments :
  forall (F : Type) (A : Float64 F) (values : list F),
    NewVector values
    = mkVector (nth 0 values (lit 0)) (nth 1 values (lit 0))
               (nth 2 values (lit 0))
    /\ NewVector values = NewVector (firstn 3 values).
Proof.
  intros F A values.
  destruct values as [| a [| b [| c rest]]]; split; reflexivity.
Qed.

(** X14.  In the second copy of the package, on every reading, [Set] leaves
    the receiver equal to [NewVector] of the same arguments, whatever the
    receiver held: of two calls in a row only the last one counts. *)
Theorem Part000_Set_is_NewVector :
  forall (F : Type) (A : Float64 F) (v : Vector F) (first last : list F),
    Part000.Vector_Set v last = NewVector last
    /\ Part000.Vector_Set (Part000.Vector_Set v first) last
       = Part000.Vector_Set v last.
Proof.
  intros F A v first last.
  rewrite !Part000_Vector_Set_NewVector. split; reflexivity.
Qed.

(** X15.  On every reading, [FromAngle] has a result exactly when it is
    given an argument, and it reads the length only from a list of exactly
    two: with three or more arguments the second one is ignored and the
    result is that of the angle alone. *)
Theorem FromAngle_arguments :
  forall (F : Type) (A : Float64 F) (M : GoMath F) (values : list F),
    (FromAngle values = None <-> values = [])
    /\ forall theta length extra rest,
         FromAngle (theta :: length :: extra :: rest) = FromAngle [theta].
Proof.
  intros F A M values. split.
  - destruct values as [| theta rest]; split; intros H;
      try reflexivity; discriminate H.
  - intros theta length extra rest. reflexivity.
Qed.

(** ** Magnitudes on the exact reading *)











Section ExactGeometry.

Local Open Scope R_scope.


Lemma Vector_Dist_R (a b : Vector R) : Vector_Dist a b = Dist a b.
Proof. reflexivity. Qed.





Lemma non_zero_Mult (v : Vector R) (k : R) :
  non_zero v = true -> k <> 0 -> non_zero (Mult v k) = true.
Proof.
  intros Hv Hk. apply non_zero_of_Mag. rewrite Mag_Mult_R.
  apply Mag_pos_R in Hv.
  apply Rmult_integral_contrapositive_currified; [| lra].
  now apply Rabs_no_R0.
Qed.




End ExactGeometry.

(** ** Distances, angles and rotations on the exact reading *)












Section ToleranceFloat.

Local Open Scope float_scope.

(** What is below the tolerance [1e-9] of [Equals] is below the tolerance
    [1e-8] of the tests' [compare]. *)
Lemma ltb_tolerance_weaken (c : float) :
  (c <? f64_dec 1 (-9)) = true -> (c <? f64_dec 1 (-8)) = true.
Proof.
  rewrite !ltb_spec.
  set (k9 := Prim2SF (f64_dec 1 (-9))). vm_compute in k9.
  set (k8 := Prim2SF (f64_dec 1 (-8))). vm_compute in k8.
  subst k9 k8.
  destruct (Prim2SF c) as [s | [] | | [] m e]; intros Hc;
    cbv [SFltb SFcompare] in Hc |- *; try discriminate Hc; try reflexivity.
  destruct (Z.compare_spec e (-82)) as [He | He | He];
    try discriminate Hc.
  - subst e. reflexivity.
  - destruct (Z.compare_spec e (-79)) as [He' | He' | He'];
      [lia | reflexivity | lia].
Qed.

Lemma compare_sym (a b : float) : compare a b = compare b a.
Proof.
  unfold compare. cbn [f64_sub f64_ltb math_Abs Float64_float].
  now rewrite (FloatLaws.fsub_swap_abs a b).
Qed.

Lemma within_compare (a b : float) :
  within_1e_9 a b = true -> compare a b = true.
Proof. unfold within_1e_9, compare. apply ltb_tolerance_weaken. Qed.

End ToleranceFloat.

(** ** The helper of the tests *)

(** X28.  On [float], the helper [compare] of the tests does not depend on
    the order of its two numbers, and it accepts every pair of components
    that [Equals] accepts: the tolerance [1e-9] of [Equals] is the stricter
    of the two. *)
Theorem compare_weaker_than_Equals :
  forall v1 v2 : Vector float,
    compare (X v1) (X v2) = compare (X v2) (X v1)
    /\ (Equals v1 v2 = true ->
        compare (X v1) (X v2) = true
        /\ compare (Y v1) (Y v2) = true
        /\ compare (Z v1) (Z v2) = true).
Proof.
  intros v1 v2. split; [apply compare_sym |].
  unfold Equals. cbv zeta. rewrite !andb_true_iff.
  intros [[Hx Hy] Hz].
  repeat split; now apply within_compare.
Qed.

Lemma compare_weaker_than_Equals_witness :
  compare (X (mkVector 1 2 3)%float) (X (mkVector 1 2 3)%float) = true.
Proof.
  apply (compare_weaker_than_Equals (mkVector 1 2 3)%float
                                    (mkVector 1 2 3)%float).
  vm_compute. reflexivity.
Defined.
